(** * systemd-pull: a shallow embedding of src/import/pull.c

    The file follows the C source function by function.  The three
    file-scope variables ([arg_image_root], [arg_verify], [arg_pull_flags])
    live in an explicit state record, next to the one event loop of the
    process and a trace of the calls the program makes to the outside
    (log lines, image-store lookups, puller calls).  A C function body is a
    computation in a small state monad whose steps either go on, [return]
    from the function, hit a failed assertion or block for ever.

    Functions that pull.c calls but that are defined in other files of the
    tree come in two groups.  The string helpers are the fields of the class
    [ImportHelpers]; every theorem about the control flow of pull.c holds
    for all of them.  What the outside world answers (image store, event
    loop, pullers, signals) is the record [World].  The [_cleanup_] handlers
    that release the puller and the loop when a function is left are not
    part of the model. *)

From Stdlib Require Import ZArith String Ascii List Bool Lia.
Import ListNotations.
Local Open Scope string_scope.
Local Open Scope Z_scope.
Local Open Scope list_scope.

(** ** Constants of the C library *)

Module Errno.
Definition ENOENT : Z := 2.
Definition EINTR  : Z := 4.
Definition ENOMEM : Z := 12.
Definition EEXIST : Z := 17.
Definition EINVAL : Z := 22.
End Errno.
Export Errno.

Definition SIGINT  : Z := 2.
Definition SIGPIPE : Z := 13.
Definition SIGTERM : Z := 15.

Definition LOG_ERR    : Z := 3.
Definition LOG_NOTICE : Z := 5.
Definition LOG_INFO   : Z := 6.

(** [int] is 32 bits wide; [abs] is the C library's.  It is undefined at
    [INT_MIN], where this definition says nothing of the program: what is
    stated of a value that went through [abs] is stated for
    [INT_MIN < x]. *)
Definition INT_MIN : Z := - 2 ^ 31.
Definition INT_MAX : Z := 2 ^ 31 - 1.
Definition abs (x : Z) : Z := Z.abs x.

(** A C truth value: any non-zero [int]. *)
Definition c_true (b : Z) : bool := negb (b =? 0).

(** ** PullFlags and ImportVerify *)

(** Modelled from the spec: the enumerators of [PullFlags] (the import
    headers are not among the sources).  The spec describes a bitmask of
    five options, so each one gets a bit of its own, and a mask per image
    kind: tar images know FORCE and SETTINGS, raw images all five. *)
Definition PULL_FORCE              : Z := Z.shiftl 1 0.
Definition PULL_SETTINGS           : Z := Z.shiftl 1 1.
Definition PULL_ROOTHASH           : Z := Z.shiftl 1 2.
Definition PULL_ROOTHASH_SIGNATURE : Z := Z.shiftl 1 3.
Definition PULL_VERITY             : Z := Z.shiftl 1 4.
Definition PULL_FLAGS_MASK_TAR     : Z := Z.lor PULL_FORCE PULL_SETTINGS.
Definition PULL_FLAGS_MASK_RAW     : Z :=
  Z.lor PULL_FORCE
    (Z.lor PULL_SETTINGS
       (Z.lor PULL_ROOTHASH (Z.lor PULL_ROOTHASH_SIGNATURE PULL_VERITY))).

(** Modelled from the spec: the enumerators of [ImportVerify], in the order
    the spec lists the modes. *)
Definition IMPORT_VERIFY_NO        : Z := 0.
Definition IMPORT_VERIFY_CHECKSUM  : Z := 1.
Definition IMPORT_VERIFY_SIGNATURE : Z := 2.

Definition IMAGE_MACHINE : Z := 0.

(** The flag macros of macro.h:
    [FLAGS_SET(v, flags)] is [(~(v) & (flags)) == 0] and
    [SET_FLAG(v, flag, b)] assigns [(b) ? (v | flag) : (v & ~flag)] to [v]. *)
Definition FLAGS_SET (v flags : Z) : bool :=
  Z.land (Z.lnot v) flags =? 0.

Definition UPDATE_FLAG (orig flag b : Z) : Z :=
  if c_true b then Z.lor orig flag else Z.land orig (Z.lnot flag).

(** ** Program state, trace and world *)

Inductive event : Type :=
| EvLog (level : Z) (format : string) (args : list string)
| EvPrintf (format : string) (args : list string)
| EvImageFind (class : Z) (name : string)
| EvEventDefault
| EvSigprocmask (signals : list Z)
| EvAddSignal (signo : Z)
| EvIgnoreSignals (signo : Z)
| EvTarPullNew (image_root : string)
| EvTarPullStart (url : string) (local : option string) (flags verify : Z)
| EvRawPullNew (image_root : string)
| EvRawPullStart (url : string) (local : option string) (flags verify : Z)
| EvEventLoop.

(** What the single-threaded loop observes, in the order it observes it. *)
Inductive loop_event : Type :=
| LoopSignal (signo : Z)      (* a signal becomes pending *)
| LoopFinished (error : Z)    (* the puller reports completion *)
| LoopProgress                (* puller I/O that completes nothing *)
| LoopFailure (r : Z).        (* the loop itself fails and returns r *)

Record State : Type := mkState {
  arg_image_root : string;
  arg_verify     : Z;
  arg_pull_flags : Z;
  (* the sd_event object: signal sources and the pending exit request *)
  ev_signals     : list Z;
  ev_exit        : option Z;
  (* calls made so far, newest first *)
  trace          : list event
}.

(** pull.c lines 22-24. *)
Definition initial_state : State := {|
  arg_image_root := "/var/lib/machines";
  arg_verify     := IMPORT_VERIFY_SIGNATURE;
  arg_pull_flags :=
    Z.lor PULL_SETTINGS
      (Z.lor PULL_ROOTHASH (Z.lor PULL_ROOTHASH_SIGNATURE PULL_VERITY));
  ev_signals     := [];
  ev_exit        := None;
  trace          := []
|}.

Record World : Type := mkWorld {
  w_program_name    : string;
  w_image_find      : Z -> string -> Z;
  w_event_default   : Z;
  w_sigprocmask     : Z;
  w_add_signal      : Z -> Z;
  w_tar_pull_new    : Z;
  w_tar_pull_start  : string -> option string -> Z -> Z -> Z;
  w_raw_pull_new    : Z;
  w_raw_pull_start  : string -> option string -> Z -> Z -> Z;
  w_loop_events     : list loop_event
}.

(** The helpers of other source files that pull.c calls on strings.  A C
    function with an out parameter yields the pair of its return value and
    of what it stored. *)
Class ImportHelpers : Type := {
  parse_boolean             : string -> Z;
  import_verify_from_string : string -> Z;
  http_url_is_valid         : string -> bool;
  import_url_last_component : string -> Z * string;
  tar_strip_suffixes        : string -> Z * string;
  raw_strip_suffixes        : string -> Z * string;
  hostname_is_valid         : string -> Z -> bool
}.

(** ** The monad of C function bodies *)

Inductive step (A : Type) : Type :=
| Next (a : A)        (* control reaches the next statement *)
| Returned (r : Z)    (* a [return r;] was executed *)
| Aborted             (* a failed assertion *)
| Blocked.            (* waits for an event that never comes *)
Arguments Next {A} a.
Arguments Returned {A} r.
Arguments Aborted {A}.
Arguments Blocked {A}.

Definition M (A : Type) : Type := State -> step A * State.

Definition pure {A} (a : A) : M A := fun st => (Next a, st).

Definition bind {A B} (m : M A) (k : A -> M B) : M B :=
  fun st =>
    match m st with
    | (Next a, st')     => k a st'
    | (Returned r, st') => (Returned r, st')
    | (Aborted, st')    => (Aborted, st')
    | (Blocked, st')    => (Blocked, st')
    end.

Definition return_ {A} (r : Z) : M A := fun st => (Returned r, st).
Definition abort {A} : M A := fun st => (Aborted, st).
Definition block {A} : M A := fun st => (Blocked, st).

Declare Scope c_scope.
Delimit Scope c_scope with c.
Notation "x <- c1 ;; c2" := (bind c1 (fun x => c2))
  (at level 100, c1 at next level, right associativity) : c_scope.
Notation "c1 ;; c2" := (bind c1 (fun _ => c2))
  (at level 100, right associativity) : c_scope.
Local Open Scope c_scope.

(** Calling a function: its [return] value is the value of the call. *)
Definition call (body : M Z) : M Z :=
  fun st =>
    match body st with
    | (Next r, st')     => (Next r, st')
    | (Returned r, st') => (Next r, st')
    | (Aborted, st')    => (Aborted, st')
    | (Blocked, st')    => (Blocked, st')
    end.

Definition call_void (body : M unit) : M unit :=
  fun st =>
    match body st with
    | (Next _, st')     => (Next tt, st')
    | (Returned _, st') => (Next tt, st')
    | (Aborted, st')    => (Aborted, st')
    | (Blocked, st')    => (Blocked, st')
    end.

(** [if (cond) stmt] without an else branch. *)
Definition when (cond : bool) (stmt : M unit) : M unit :=
  if cond then stmt else pure tt.

Definition emit (e : event) : M unit :=
  fun st => (Next tt,
             mkState (arg_image_root st) (arg_verify st) (arg_pull_flags st)
                     (ev_signals st) (ev_exit st) (e :: trace st)).

Definition set_arg_image_root (v : string) : M unit :=
  fun st => (Next tt,
             mkState v (arg_verify st) (arg_pull_flags st)
                     (ev_signals st) (ev_exit st) (trace st)).

Definition set_arg_verify (v : Z) : M unit :=
  fun st => (Next tt,
             mkState (arg_image_root st) v (arg_pull_flags st)
                     (ev_signals st) (ev_exit st) (trace st)).

Definition set_arg_pull_flags (v : Z) : M unit :=
  fun st => (Next tt,
             mkState (arg_image_root st) (arg_verify st) v
                     (ev_signals st) (ev_exit st) (trace st)).

Definition SET_FLAG (flag b : Z) : M unit :=
  fun st => set_arg_pull_flags (UPDATE_FLAG (arg_pull_flags st) flag b) st.

Definition read {A} (f : State -> A) : M A := fun st => (Next (f st), st).

(** ** Logging *)

(** Modelled from the spec: the logging macros of log.h, which is not among
    the sources.  A log call writes its line; [log_error_errno] hands the
    error back as a negative errno-style value, so that
    [return log_error_errno(r, ...)] leaves the function with it, and
    [SYNTHETIC_ERRNO] only marks an error that no failed call produced. *)
Definition SYNTHETIC_ERRNO (num : Z) : Z := num.

Definition log_info (format : string) (args : list string) : M unit :=
  emit (EvLog LOG_INFO format args).

Definition log_notice (format : string) (args : list string) : M unit :=
  emit (EvLog LOG_NOTICE format args).

Definition log_error_errno (error : Z) (format : string) (args : list string)
  : M Z :=
  emit (EvLog LOG_ERR format args);; pure (- abs error).

Definition log_oom : M Z :=
  emit (EvLog LOG_ERR "Out of memory." []);; pure (- ENOMEM).

(** [return f(...);] *)
Definition return_of {A} (f : M Z) : M A := r <- f;; return_ r.

(** ** The command line, as getopt_long(3) hands it to the program

    [parse_argv] sees the command line only through the values that
    [getopt_long] returns one after the other ([c], with the option's
    argument in [optarg]) until it answers -1; the verbs see the words that
    are left from [optind] on. *)
Record getopt_ret : Type := mkOpt { c : Z; optarg : string }.

Record CommandLine : Type := mkCommandLine {
  cl_options    : list getopt_ret;
  cl_positional : list string
}.

Definition CHAR_h        : Z := 104.  (* 'h' *)
Definition CHAR_QUESTION : Z := 63.   (* '?' *)

(** The option codes of [parse_argv]'s enum, pull.c lines 229-238. *)
Definition ARG_VERSION            : Z := 256.  (* 0x100 *)
Definition ARG_FORCE              : Z := 257.
Definition ARG_IMAGE_ROOT         : Z := 258.
Definition ARG_VERIFY             : Z := 259.
Definition ARG_SETTINGS           : Z := 260.
Definition ARG_ROOTHASH           : Z := 261.
Definition ARG_ROOTHASH_SIGNATURE : Z := 262.
Definition ARG_VERITY             : Z := 263.

(** [argv[i]] *)
Definition argv_at (argv : list string) (i : nat) : string := nth i argv "".

(** Modelled from the spec: [empty_or_dash_to_null] (string-util.h, not
    among the sources).  It maps the "no name" placeholder "-" of the spec
    and, as its name at the call site says, the empty string to NULL, and
    leaves every other string as it is. *)
Definition empty_or_dash_to_null (p : string) : option string :=
  if (p =? "")%string || (p =? "-")%string then None else Some p.

(** Modelled from the spec: the verb table entry of verbs.h and the
    "any number of arguments" mark [VERB_ANY]. *)
Definition VERB_ANY : Z := 2 ^ 32 - 1.

Record Verb : Type := mkVerb {
  verb      : string;
  min_args  : Z;
  max_args  : Z;
  flags     : Z;
  dispatch  : Z -> list string -> M Z
}.

Fixpoint verbs_find_verb (name : string) (verbs : list Verb) : option Verb :=
  match verbs with
  | [] => None
  | v :: rest =>
      if (verb v =? name)%string then Some v else verbs_find_verb name rest
  end.

(** Modelled from the spec: [dispatch_verb] (verbs.c, not among the
    sources).  The first positional word names the verb; the argument
    count, which includes that word, has to lie between the verb's bounds;
    an unknown or absent verb and a count out of range fail with EINVAL
    before the verb's function is entered. *)
Definition dispatch_verb (argv : list string) (verbs : list Verb) : M Z :=
  let left := Z.of_nat (length argv) in
  match argv with
  | [] =>
      return_of (log_error_errno (SYNTHETIC_ERRNO EINVAL)
                   "Command verb required." [])
  | name :: _ =>
      match verbs_find_verb name verbs with
      | None =>
          return_of (log_error_errno (SYNTHETIC_ERRNO EINVAL)
                       "Unknown command verb %s." [name])
      | Some v =>
          when (negb (min_args v =? VERB_ANY) && (left <? min_args v))
            (return_of (log_error_errno (SYNTHETIC_ERRNO EINVAL)
                          "Too few arguments." []));;
          when (negb (max_args v =? VERB_ANY) && (max_args v <? left))
            (return_of (log_error_errno (SYNTHETIC_ERRNO EINVAL)
                          "Too many arguments." []));;
          return_of (call (dispatch v left argv))
      end
  end.

(** Modelled from the spec: [version] (build.h, not among the sources)
    prints the package version and, like [help], ends the invocation
    with 0. *)
Definition version : M Z :=
  emit (EvPrintf "systemd %s" []);; return_ 0.

(** ** pull.c *)

Section Pull.

Context {H : ImportHelpers} (w : World).

(** *** The calls into the rest of the system

    The image store, the pullers and the signal mask are outside pull.c:
    each call is recorded in the trace and answers what the world [w]
    answers. *)

Definition image_find (class : Z) (name : string) : M Z :=
  emit (EvImageFind class name);; pure (w_image_find w class name).

(** The first [sd_event_default] of a process allocates its loop: no
    signal source yet, no exit requested. *)
Definition sd_event_default : M Z :=
  emit EvEventDefault;;
  let r := w_event_default w in
  when (0 <=? r)
    (fun st => (Next tt,
                mkState (arg_image_root st) (arg_verify st)
                        (arg_pull_flags st) [] None (trace st)));;
  pure r.

Definition sigprocmask_many (signals : list Z) : M Z :=
  emit (EvSigprocmask signals);; pure (w_sigprocmask w).

Definition ignore_signals (signo : Z) : M Z :=
  emit (EvIgnoreSignals signo);; pure 0.

(** Modelled from the spec: [sd_event_add_signal] and [sd_event_exit]
    (sd-event, not among the sources).  A registration that succeeds makes
    the loop watch the signal; an exit request records the exit value the
    loop is to return. *)
Definition sd_event_add_signal (signo : Z) : M Z :=
  emit (EvAddSignal signo);;
  let r := w_add_signal w signo in
  when (0 <=? r)
    (fun st => (Next tt,
                mkState (arg_image_root st) (arg_verify st)
                        (arg_pull_flags st) (signo :: ev_signals st)
                        (ev_exit st) (trace st)));;
  pure r.

Definition sd_event_exit (code : Z) : M Z :=
  fun st => (Next 0,
             mkState (arg_image_root st) (arg_verify st) (arg_pull_flags st)
                     (ev_signals st) (Some code) (trace st)).

Definition tar_pull_new : M Z :=
  root <- read arg_image_root;;
  emit (EvTarPullNew root);; pure (w_tar_pull_new w).

Definition tar_pull_start (url : string) (local : option string)
           (flags verify : Z) : M Z :=
  emit (EvTarPullStart url local flags verify);;
  pure (w_tar_pull_start w url local flags verify).

Definition raw_pull_new : M Z :=
  root <- read arg_image_root;;
  emit (EvRawPullNew root);; pure (w_raw_pull_new w).

Definition raw_pull_start (url : string) (local : option string)
           (flags verify : Z) : M Z :=
  emit (EvRawPullStart url local flags verify);;
  pure (w_raw_pull_start w url local flags verify).

(** Modelled from the spec: [sd_event_loop] (sd-event, not among the
    sources).  The loop hands the events it observes to their callbacks,
    one at a time and in order: a pending signal to the handler
    registered for it, the puller's completion to the completion
    callback.  Once a callback has asked the loop to stop, no further
    callback is dispatched and the loop returns the exit value it was
    given.  With nothing left to observe the loop waits for ever. *)
Definition sd_event_dispatch (on_signal : M Z) (on_finished : Z -> M unit)
           (e : loop_event) : M unit :=
  match e with
  | LoopSignal signo =>
      watched <- read (fun st => existsb (Z.eqb signo) (ev_signals st));;
      when watched (_ <- call on_signal;; pure tt)
  | LoopFinished error => call_void (on_finished error)
  | LoopProgress => pure tt
  | LoopFailure _ => pure tt
  end.

Fixpoint sd_event_run (on_signal : M Z) (on_finished : Z -> M unit)
         (events : list loop_event) : M Z :=
  match events with
  | [] => block
  | LoopFailure r :: _ => pure r
  | e :: rest =>
      sd_event_dispatch on_signal on_finished e;;
      x <- read ev_exit;;
      match x with
      | Some code => pure code
      | None => sd_event_run on_signal on_finished rest
      end
  end.

Definition sd_event_loop (on_signal : M Z) (on_finished : Z -> M unit)
  : M Z :=
  emit EvEventLoop;;
  sd_event_run on_signal on_finished (w_loop_events w).

(** *** lines 26-40 *)

Definition interrupt_signal_handler : M Z :=
  log_notice "Transfer aborted." [];;
  _ <- sd_event_exit EINTR;;
  return_ 0.

Definition on_tar_finished (error : Z) : M unit :=
  when (error =? 0) (log_info "Operation completed successfully." []);;
  _ <- sd_event_exit (abs error);;
  pure tt.

(** *** lines 42-116 *)

(** Lines 49-92: the URL is checked and the local name resolved. *)
Definition pull_tar_resolve (argc : Z) (argv : list string)
  : M (option string) :=
  let url := argv_at argv 1 in
  when (negb (http_url_is_valid url))
    (return_of (log_error_errno (SYNTHETIC_ERRNO EINVAL)
                  "URL '%s' is not valid." [url]));;
  local <- (if 3 <=? argc then pure (argv_at argv 2)
            else
              let '(r, l) := import_url_last_component url in
              when (r <? 0)
                (return_of (log_error_errno r
                   "Failed get final component of URL: %m" []));;
              pure l);;
  match empty_or_dash_to_null local with
  | Some local =>
      let '(r, ll) := tar_strip_suffixes local in
      when (r <? 0) (return_of log_oom);;
      let local := ll in
      when (negb (hostname_is_valid local 0))
        (return_of (log_error_errno (SYNTHETIC_ERRNO EINVAL)
                      "Local image name '%s' is not valid." [local]));;
      pull_flags <- read arg_pull_flags;;
      when (negb (FLAGS_SET pull_flags PULL_FORCE))
        (r <- image_find IMAGE_MACHINE local;;
         if r <? 0 then
           when (negb (r =? - ENOENT))
             (return_of (log_error_errno r
                "Failed to check whether image '%s' exists: %m" [local]))
         else
           return_of (log_error_errno (SYNTHETIC_ERRNO EEXIST)
                        "Image '%s' already exists." [local]));;
      log_info "Pulling '%s', saving as '%s'." [url; local];;
      pure (Some local)
  | None =>
      log_info "Pulling '%s'." [url];;
      pure None
  end.

(** Lines 94-115: the loop is set up, the puller started and the loop run. *)
Definition pull_tar_transfer (url : string) (local : option string)
  : M Z :=
  r <- sd_event_default;;
  when (r <? 0)
    (return_of (log_error_errno r "Failed to allocate event loop: %m" []));;
  r <- sigprocmask_many [SIGTERM; SIGINT];;
  when (negb (0 <=? r)) abort;;
  _ <- sd_event_add_signal SIGTERM;;
  _ <- sd_event_add_signal SIGINT;;
  r <- tar_pull_new;;
  when (r <? 0)
    (return_of (log_error_errno r "Failed to allocate puller: %m" []));;
  pull_flags <- read arg_pull_flags;;
  verify <- read arg_verify;;
  r <- tar_pull_start url local (Z.land pull_flags PULL_FLAGS_MASK_TAR)
         verify;;
  when (r <? 0)
    (return_of (log_error_errno r "Failed to pull image: %m" []));;
  r <- sd_event_loop interrupt_signal_handler on_tar_finished;;
  when (r <? 0)
    (return_of (log_error_errno r "Failed to run event loop: %m" []));;
  log_info "Exiting." [];;
  return_ (- r).

Definition pull_tar (argc : Z) (argv : list string) : M Z :=
  local <- pull_tar_resolve argc argv;;
  pull_tar_transfer (argv_at argv 1) local.

(** *** lines 118-202 *)

Definition on_raw_finished (error : Z) : M unit :=
  when (error =? 0) (log_info "Operation completed successfully." []);;
  _ <- sd_event_exit (abs error);;
  pure tt.

(** Lines 135-178: the URL is checked and the local name resolved. *)
Definition pull_raw_resolve (argc : Z) (argv : list string)
  : M (option string) :=
  let url := argv_at argv 1 in
  when (negb (http_url_is_valid url))
    (return_of (log_error_errno (SYNTHETIC_ERRNO EINVAL)
                  "URL '%s' is not valid." [url]));;
  local <- (if 3 <=? argc then pure (argv_at argv 2)
            else
              let '(r, l) := import_url_last_component url in
              when (r <? 0)
                (return_of (log_error_errno r
                   "Failed get final component of URL: %m" []));;
              pure l);;
  match empty_or_dash_to_null local with
  | Some local =>
      let '(r, ll) := raw_strip_suffixes local in
      when (r <? 0) (return_of log_oom);;
      let local := ll in
      when (negb (hostname_is_valid local 0))
        (return_of (log_error_errno (SYNTHETIC_ERRNO EINVAL)
                      "Local image name '%s' is not valid." [local]));;
      pull_flags <- read arg_pull_flags;;
      when (negb (FLAGS_SET pull_flags PULL_FORCE))
        (r <- image_find IMAGE_MACHINE local;;
         if r <? 0 then
           when (negb (r =? - ENOENT))
             (return_of (log_error_errno r
                "Failed to check whether image '%s' exists: %m" [local]))
         else
           return_of (log_error_errno (SYNTHETIC_ERRNO EEXIST)
                        "Image '%s' already exists." [local]));;
      log_info "Pulling '%s', saving as '%s'." [url; local];;
      pure (Some local)
  | None =>
      log_info "Pulling '%s'." [url];;
      pure None
  end.

(** Lines 180-201: the loop is set up, the puller started and the loop run. *)
Definition pull_raw_transfer (url : string) (local : option string)
  : M Z :=
  r <- sd_event_default;;
  when (r <? 0)
    (return_of (log_error_errno r "Failed to allocate event loop: %m" []));;
  r <- sigprocmask_many [SIGTERM; SIGINT];;
  when (negb (0 <=? r)) abort;;
  _ <- sd_event_add_signal SIGTERM;;
  _ <- sd_event_add_signal SIGINT;;
  r <- raw_pull_new;;
  when (r <? 0)
    (return_of (log_error_errno r "Failed to allocate puller: %m" []));;
  pull_flags <- read arg_pull_flags;;
  verify <- read arg_verify;;
  r <- raw_pull_start url local (Z.land pull_flags PULL_FLAGS_MASK_RAW)
         verify;;
  when (r <? 0)
    (return_of (log_error_errno r "Failed to pull image: %m" []));;
  r <- sd_event_loop interrupt_signal_handler on_raw_finished;;
  when (r <? 0)
    (return_of (log_error_errno r "Failed to run event loop: %m" []));;
  log_info "Exiting." [];;
  return_ (- r).

Definition pull_raw (argc : Z) (argv : list string) : M Z :=
  local <- pull_raw_resolve argc argv;;
  pull_raw_transfer (argv_at argv 1) local.

(** *** lines 204-225 *)

Definition help_text : string :=
  "%s [OPTIONS...] {COMMAND} ...\n\n" ++
  "Download container or virtual machine images.\n\n" ++
  "  -h --help                   Show this help\n" ++
  "     --version                Show package version\n" ++
  "     --force                  Force creation of image\n" ++
  "     --verify=MODE            Verify downloaded image, one of: 'no',\n" ++
  "                              'checksum', 'signature'\n" ++
  "     --settings=BOOL          Download settings file with image\n" ++
  "     --roothash=BOOL          Download root hash file with image\n" ++
  "     --roothash-signature=BOOL\n" ++
  "                              Download root hash signature file with image\n" ++
  "     --verity=BOOL            Download verity file with image\n" ++
  "     --image-root=PATH        Image root directory\n\n" ++
  "Commands:\n" ++
  "  tar URL [NAME]              Download a TAR image\n" ++
  "  raw URL [NAME]              Download a RAW image\n".

Definition help (argc : Z) (argv : list string) : M Z :=
  emit (EvPrintf help_text [w_program_name w]);;
  return_ 0.

(** *** lines 227-328 *)

(** The body of the [switch], one [getopt_long] result at a time; a case
    that ends in [break] lets control go on. *)
Definition parse_argv_case (o : getopt_ret) : M unit :=
  let c := c o in
  let optarg := optarg o in
  if c =? CHAR_h then
    return_of (call (help 0 []))
  else if c =? ARG_VERSION then
    return_of (call version)
  else if c =? ARG_FORCE then
    pull_flags <- read arg_pull_flags;;
    set_arg_pull_flags (Z.lor pull_flags PULL_FORCE)
  else if c =? ARG_IMAGE_ROOT then
    set_arg_image_root optarg
  else if c =? ARG_VERIFY then
    set_arg_verify (import_verify_from_string optarg);;
    verify <- read arg_verify;;
    when (verify <? 0)
      (return_of (log_error_errno (SYNTHETIC_ERRNO EINVAL)
                    "Invalid verification setting '%s'" [optarg]))
  else if c =? ARG_SETTINGS then
    let r := parse_boolean optarg in
    when (r <? 0)
      (return_of (log_error_errno r
         "Failed to parse --settings= parameter '%s': %m" [optarg]));;
    SET_FLAG PULL_SETTINGS r
  else if c =? ARG_ROOTHASH then
    let r := parse_boolean optarg in
    when (r <? 0)
      (return_of (log_error_errno r
         "Failed to parse --roothash= parameter '%s': %m" [optarg]));;
    SET_FLAG PULL_ROOTHASH r;;
    (* If we were asked to turn off the root hash, implicitly also turn
       off the root hash signature *)
    when (negb (c_true r)) (SET_FLAG PULL_ROOTHASH_SIGNATURE 0)
  else if c =? ARG_ROOTHASH_SIGNATURE then
    let r := parse_boolean optarg in
    when (r <? 0)
      (return_of (log_error_errno r
         "Failed to parse --roothash-signature= parameter '%s': %m"
         [optarg]));;
    SET_FLAG PULL_ROOTHASH_SIGNATURE r
  else if c =? ARG_VERITY then
    let r := parse_boolean optarg in
    when (r <? 0)
      (return_of (log_error_errno r
         "Failed to parse --verity= parameter '%s': %m" [optarg]));;
    SET_FLAG PULL_VERITY r
  else if c =? CHAR_QUESTION then
    return_ (- EINVAL)
  else
    abort.  (* assert_not_reached() *)

Fixpoint parse_argv_loop (options : list getopt_ret) : M unit :=
  match options with
  | [] => pure tt
  | o :: rest => parse_argv_case o;; parse_argv_loop rest
  end.

Definition parse_argv (options : list getopt_ret) : M Z :=
  parse_argv_loop options;;
  return_ 1.

(** *** lines 330-355 *)

Definition verbs : list Verb :=
  [ mkVerb "help" VERB_ANY VERB_ANY 0 help;
    mkVerb "tar"  2        3        0 pull_tar;
    mkVerb "raw"  2        3        0 pull_raw ].

Definition pull_main (argv : list string) : M Z :=
  return_of (call (dispatch_verb argv verbs)).

(** [setlocale], [log_parse_environment] and [log_open] configure the
    process and leave the state of the model alone. *)
Definition run (cl : CommandLine) : M Z :=
  r <- call (parse_argv (cl_options cl));;
  when (r <=? 0) (return_ r);;
  _ <- ignore_signals SIGPIPE;;
  return_of (call (pull_main (cl_positional cl))).

(** Modelled from the spec: [DEFINE_MAIN_FUNCTION] (main-func.h, not among
    the sources).  The spec's exit contract makes the status of the
    process 0 on success and the magnitude of the error that [run]
    returns otherwise. *)
Definition exit_status (r : Z) : Z := Z.abs r.

Definition main (cl : CommandLine) : M Z :=
  r <- call (run cl);;
  return_ (exit_status r).

End Pull.

(** ** The string helpers, as the spec describes them

    These definitions give the fields of [ImportHelpers] a concrete value.
    They are used where a claim names a concrete command line and to show
    that the hypotheses of the general theorems can be met. *)

Module SpecHelpers.

(** [endswith s suffix]: what comes before [suffix] when [s] ends in it. *)
Definition endswith (s suffix : string) : option string :=
  let n := String.length s in
  let k := String.length suffix in
  if (k <=? n)%nat && (substring (n - k) k s =? suffix)%string
  then Some (substring 0 (n - k) s)
  else None.

Fixpoint first_stripped (s : string) (suffixes : list string)
  : option string :=
  match suffixes with
  | [] => None
  | x :: rest =>
      match endswith s x with
      | Some p => Some p
      | None => first_stripped s rest
      end
  end.

(** Modelled from the spec: [parse_boolean] (parse-util.c, not among the
    sources).  A boolean literal yields 1 or 0, any other string is an
    invalid literal and yields -EINVAL. *)
Definition parse_boolean (v : string) : Z :=
  if existsb (String.eqb v) ["1"; "yes"; "y"; "true"; "t"; "on"] then 1
  else if existsb (String.eqb v) ["0"; "no"; "n"; "false"; "f"; "off"] then 0
  else - EINVAL.

(** Modelled from the spec: [import_verify_from_string] (import-util.c, not
    among the sources).  The literals "no", "checksum" and "signature"
    name the three modes; any other string names none. *)
Definition import_verify_from_string (v : string) : Z :=
  if (v =? "no")%string then IMPORT_VERIFY_NO
  else if (v =? "checksum")%string then IMPORT_VERIFY_CHECKSUM
  else if (v =? "signature")%string then IMPORT_VERIFY_SIGNATURE
  else - EINVAL.

Definition after_scheme (url : string) : option string :=
  if prefix "http://" url
  then Some (substring 7 (String.length url - 7) url)
  else if prefix "https://" url
  then Some (substring 8 (String.length url - 8) url)
  else None.

(** Modelled from the spec: [http_url_is_valid] (web-util.c, not among the
    sources).  A valid URL is an http or https URL that names something
    after the scheme. *)
Definition http_url_is_valid (url : string) : bool :=
  match after_scheme url with
  | Some rest => negb (rest =? "")%string
  | None => false
  end.

(** What follows the last "/" of [s]; nothing when [s] has no "/". *)
Fixpoint final_segment (s : string) (seen : bool) (acc : string) : string :=
  match s with
  | EmptyString => if seen then acc else ""
  | String ch rest =>
      if (ch =? "/")%char then final_segment rest true ""
      else final_segment rest seen (acc ++ String ch "")
  end.

(** Modelled from the spec: [import_url_last_component] (import-util.c,
    not among the sources).  The name is the final path segment of the
    URL, the path being what follows scheme and host; a URL without such
    a segment is invalid input. *)
Definition import_url_last_component (url : string) : Z * string :=
  match after_scheme url with
  | None => (- EINVAL, "")
  | Some rest =>
      let seg := final_segment rest false "" in
      if (seg =? "")%string then (- EINVAL, "") else (0, seg)
  end.

(** Modelled from the spec: [tar_strip_suffixes] (import-util.c, not among
    the sources) strips one suffix of the tar family. *)
Definition tar_suffixes : list string :=
  [".tar"; ".tar.xz"; ".tar.gz"; ".tar.bz2"; ".tgz"].

Definition tar_strip_suffixes (name : string) : Z * string :=
  match first_stripped name tar_suffixes with
  | Some p => (0, p)
  | None => (0, name)
  end.

(** Modelled from the spec: [raw_strip_suffixes] (import-util.c, not among
    the sources) strips the raw and disk-image suffixes, as many as the
    name ends in. *)
Definition raw_suffixes : list string :=
  [".xz"; ".gz"; ".bz2"; ".raw"; ".qcow2"; ".img"; ".bin"].

Fixpoint raw_strip_loop (fuel : nat) (name : string) : string :=
  match fuel with
  | O => name
  | S fuel' =>
      match first_stripped name raw_suffixes with
      | Some p => raw_strip_loop fuel' p
      | None => name
      end
  end.

Definition raw_strip_suffixes (name : string) : Z * string :=
  (0, raw_strip_loop (String.length name) name).

Definition hostname_valid_char (ch : ascii) : bool :=
  let n := nat_of_ascii ch in
  ((97 <=? n) && (n <=? 122) || (65 <=? n) && (n <=? 90)
   || (48 <=? n) && (n <=? 57)
   || (ch =? "-")%char || (ch =? "_")%char || (ch =? ".")%char)%nat.

(** Modelled from the spec: [hostname_is_valid] (hostname-util.c, not
    among the sources): a restricted character set and length bounds. *)
Definition hostname_is_valid (s : string) (flags : Z) : bool :=
  (1 <=? String.length s)%nat && (String.length s <=? 64)%nat
  && forallb hostname_valid_char (list_ascii_of_string s).

Definition helpers : ImportHelpers :=
  Build_ImportHelpers parse_boolean import_verify_from_string
    http_url_is_valid import_url_last_component tar_strip_suffixes
    raw_strip_suffixes hostname_is_valid.

End SpecHelpers.

(** What the spec promises of the option helpers, for any implementation. *)
Record HelpersSpec (H : ImportHelpers) : Prop := {
  verify_no        : import_verify_from_string "no" = IMPORT_VERIFY_NO;
  verify_checksum  : import_verify_from_string "checksum"
                     = IMPORT_VERIFY_CHECKSUM;
  verify_signature : import_verify_from_string "signature"
                     = IMPORT_VERIFY_SIGNATURE;
  verify_other     : forall v, v <> "no" -> v <> "checksum" ->
                               v <> "signature" ->
                               import_verify_from_string v < 0;
  boolean_invalid  : forall v, parse_boolean v < 0 ->
                               parse_boolean v = - EINVAL
}.

(** A world in which nothing fails: no image exists yet, every call
    succeeds and the loop sees the events [events]. *)
Definition quiet_world (events : list loop_event) : World := {|
  w_program_name   := "systemd-pull";
  w_image_find     := fun _ _ => - ENOENT;
  w_event_default  := 0;
  w_sigprocmask    := 0;
  w_add_signal     := fun _ => 0;
  w_tar_pull_new   := 0;
  w_tar_pull_start := fun _ _ _ _ => 0;
  w_raw_pull_new   := 0;
  w_raw_pull_start := fun _ _ _ _ => 0;
  w_loop_events    := events
|}.

(** ** Vocabulary of the statements *)

(** Calls that reach the image store, the pullers or the network. *)
Definition is_store_event (e : event) : bool :=
  match e with
  | EvImageFind _ _ => true
  | _ => false
  end.

Definition is_puller_event (e : event) : bool :=
  match e with
  | EvTarPullNew _ | EvTarPullStart _ _ _ _
  | EvRawPullNew _ | EvRawPullStart _ _ _ _ => true
  | _ => false
  end.

(** [m] only ever adds events that satisfy [P] to the trace. *)
Definition emits {A} (P : event -> bool) (m : M A) : Prop :=
  forall st, exists added,
    trace (snd (m st)) = added ++ trace st /\ forallb P added = true.

(** The signals for which pull.c manages to register its handler. *)
Definition watched (w : World) (signo : Z) : bool :=
  ((signo =? SIGTERM) || (signo =? SIGINT)) && (0 <=? w_add_signal w signo).

(** Events that do not end the loop: puller progress and signals nobody
    watches. *)
Definition passes (w : World) (e : loop_event) : bool :=
  match e with
  | LoopProgress => true
  | LoopSignal signo => negb (watched w signo)
  | LoopFinished _ | LoopFailure _ => false
  end.

(** The world lets a transfer of [url] get as far as the event loop. *)
Definition tar_starts (w : World) (url : string) (local : option string)
  : Prop :=
  0 <= w_event_default w /\ 0 <= w_sigprocmask w /\ 0 <= w_tar_pull_new w /\
  forall flags verify, 0 <= w_tar_pull_start w url local flags verify.

Definition raw_starts (w : World) (url : string) (local : option string)
  : Prop :=
  0 <= w_event_default w /\ 0 <= w_sigprocmask w /\ 0 <= w_raw_pull_new w /\
  forall flags verify, 0 <= w_raw_pull_start w url local flags verify.

Definition is_log (e : event) : bool :=
  match e with
  | EvLog _ _ _ => true
  | _ => false
  end.

Definition not_store (e : event) : bool := negb (is_store_event e).
Definition not_puller (e : event) : bool := negb (is_puller_event e).
Definition no_activity (e : event) : bool :=
  negb (is_store_event e) && negb (is_puller_event e)
  && match e with EvEventLoop | EvEventDefault => false | _ => true end.

(** Adding events to the trace of a state. *)
Definition logged (added : list event) (st : State) : State :=
  mkState (arg_image_root st) (arg_verify st) (arg_pull_flags st)
          (ev_signals st) (ev_exit st) (added ++ trace st).

Definition with_verify (v : Z) (st : State) : State :=
  mkState (arg_image_root st) v (arg_pull_flags st)
          (ev_signals st) (ev_exit st) (trace st).

(** The signal sources of the loop after the two [sd_event_add_signal]
    calls of a transfer. *)
Definition signals_of (w : World) : list Z :=
  (if 0 <=? w_add_signal w SIGINT then [SIGINT] else [])
  ++ (if 0 <=? w_add_signal w SIGTERM then [SIGTERM] else []).

(** The state in which a transfer enters [sd_event_loop], given the event
    that records the start of the puller. *)
Definition loop_state (w : World) (new start : event) (st : State) : State :=
  mkState (arg_image_root st) (arg_verify st) (arg_pull_flags st)
          (signals_of w) None
          ([EvEventLoop; start; new; EvAddSignal SIGINT; EvAddSignal SIGTERM;
            EvSigprocmask [SIGTERM; SIGINT]; EvEventDefault] ++ trace st).

(** The two image kinds, to state once what holds of [pull_tar] and of
    [pull_raw]. *)
Inductive kind : Type := Tar | Raw.

Definition verb_of (k : kind) : string :=
  match k with Tar => "tar" | Raw => "raw" end.

Definition pull {H : ImportHelpers} (w : World) (k : kind)
  : Z -> list string -> M Z :=
  match k with Tar => pull_tar w | Raw => pull_raw w end.

Definition pull_resolve {H : ImportHelpers} (w : World) (k : kind)
  : Z -> list string -> M (option string) :=
  match k with Tar => pull_tar_resolve w | Raw => pull_raw_resolve w end.

Definition pull_transfer (w : World) (k : kind)
  : string -> option string -> M Z :=
  match k with Tar => pull_tar_transfer w | Raw => pull_raw_transfer w end.

Definition strip_suffixes {H : ImportHelpers} (k : kind)
  : string -> Z * string :=
  match k with Tar => tar_strip_suffixes | Raw => raw_strip_suffixes end.

Definition starts (w : World) (k : kind) : string -> option string -> Prop :=
  match k with Tar => tar_starts w | Raw => raw_starts w end.

Definition EvPullNew (k : kind) : string -> event :=
  match k with Tar => EvTarPullNew | Raw => EvRawPullNew end.

Definition EvPullStart (k : kind)
  : string -> option string -> Z -> Z -> event :=
  match k with Tar => EvTarPullStart | Raw => EvRawPullStart end.

Definition PULL_FLAGS_MASK (k : kind) : Z :=
  match k with Tar => PULL_FLAGS_MASK_TAR | Raw => PULL_FLAGS_MASK_RAW end.

(** The event that records the start of the puller from state [st]. *)
Definition start_event (k : kind) (url : string) (local : option string)
           (st : State) : event :=
  EvPullStart k url local (Z.land (arg_pull_flags st) (PULL_FLAGS_MASK k))
              (arg_verify st).

(** Name resolution gets as far as the collision check with the non-null
    name [name]: the URL is valid, the name given on the command line or
    taken from the URL is neither empty nor "-", its suffixes are stripped
    and what is left is a valid host name. *)
Definition resolves {H : ImportHelpers} (k : kind) (argc : Z)
           (argv : list string) (name : string) : Prop :=
  http_url_is_valid (argv_at argv 1) = true /\
  exists given kept,
    (if 3 <=? argc then given = argv_at argv 2
     else 0 <= fst (import_url_last_component (argv_at argv 1)) /\
          given = snd (import_url_last_component (argv_at argv 1))) /\
    empty_or_dash_to_null given = Some kept /\
    0 <= fst (strip_suffixes k kept) /\
    name = snd (strip_suffixes k kept) /\
    hostname_is_valid name 0 = true.

(** The invocation [cl] gets as far as running its event loop, and [e] is
    the first event that ends the loop: the options are accepted, the verb
    is tar or raw with a URL and at most a name, the name resolves, the
    loop and the puller start, and the loop sees only passing events
    before [e]. *)
Definition completes {H : ImportHelpers} (w : World) (cl : CommandLine)
           (st : State) (e : loop_event) : Prop :=
  exists st1 k url rest local st2 pre post,
    parse_argv w (cl_options cl) st = (Returned 1, st1) /\
    cl_positional cl = verb_of k :: url :: rest /\
    (length rest <= 1)%nat /\
    pull_resolve w k (Z.of_nat (2 + length rest)) (verb_of k :: url :: rest)
      (logged [EvIgnoreSignals SIGPIPE] st1) = (Next local, st2) /\
    starts w k url local /\
    w_loop_events w = pre ++ e :: post /\
    forallb (passes w) pre = true.

(** The command lines of the spec's scenarios. *)
Definition foo_url : string := "https://example.com/images/foo.tar.xz".
Definition img_url : string := "https://example.com/img.raw".
Definition bare_url : string := "https://example.com/".

Definition roothash_then_signature : list getopt_ret :=
  [mkOpt ARG_ROOTHASH "false"; mkOpt ARG_ROOTHASH_SIGNATURE "true"].

(** The initial state after a --force. *)
Definition forced_state : State :=
  mkState (arg_image_root initial_state) (arg_verify initial_state)
          (Z.lor (arg_pull_flags initial_state) PULL_FORCE)
          (ev_signals initial_state) (ev_exit initial_state)
          (trace initial_state).

(** A world like [quiet_world] whose image store answers every lookup with
    [found]. *)
Definition store_world (found : Z) (events : list loop_event) : World := {|
  w_program_name   := "systemd-pull";
  w_image_find     := fun _ _ => found;
  w_event_default  := 0;
  w_sigprocmask    := 0;
  w_add_signal     := fun _ => 0;
  w_tar_pull_new   := 0;
  w_tar_pull_start := fun _ _ _ _ => 0;
  w_raw_pull_new   := 0;
  w_raw_pull_start := fun _ _ _ _ => 0;
  w_loop_events    := events
|}.

(** [return f(...);] where [f] is a function of the program. *)
Definition invoke (body : M Z) : M Z := return_of (call body).

(** The name that lines 64 and 150 keep: the URL is valid and the name
    given on the command line or taken from the URL is neither empty nor
    "-". *)
Definition keeps_name {H : ImportHelpers} (argc : Z) (argv : list string)
           (kept : string) : Prop :=
  http_url_is_valid (argv_at argv 1) = true /\
  exists given,
    (if 3 <=? argc then given = argv_at argv 2
     else 0 <= fst (import_url_last_component (argv_at argv 1)) /\
          given = snd (import_url_last_component (argv_at argv 1))) /\
    empty_or_dash_to_null given = Some kept.

(** The helpers [H] with another [import_url_last_component]. *)
Definition with_last_component (H : ImportHelpers)
           (f : string -> Z * string) : ImportHelpers :=
  Build_ImportHelpers parse_boolean import_verify_from_string
    http_url_is_valid f tar_strip_suffixes raw_strip_suffixes
    hostname_is_valid.

(** The state of a transfer once its loop is allocated and the two signal
    handlers are registered, with [added] the calls made since [st]. *)
Definition event_state (w : World) (added : list event) (st : State)
  : State :=
  mkState (arg_image_root st) (arg_verify st) (arg_pull_flags st)
          (signals_of w) None (added ++ trace st).

(** A world without images in which the set-up calls of a transfer answer
    as given. *)
Definition setup_world (event_default sigprocmask new start : Z)
           (events : list loop_event) : World := {|
  w_program_name   := "systemd-pull";
  w_image_find     := fun _ _ => - ENOENT;
  w_event_default  := event_default;
  w_sigprocmask    := sigprocmask;
  w_add_signal     := fun _ => 0;
  w_tar_pull_new   := new;
  w_tar_pull_start := fun _ _ _ _ => start;
  w_raw_pull_new   := new;
  w_raw_pull_start := fun _ _ _ _ => start;
  w_loop_events    := events
|}.

(** What the world answers to the creation and to the start of the puller
    of kind [k]. *)
Definition w_pull_new (w : World) (k : kind) : Z :=
  match k with Tar => w_tar_pull_new w | Raw => w_raw_pull_new w end.

Definition w_pull_start (w : World) (k : kind)
  : string -> option string -> Z -> Z -> Z :=
  match k with Tar => w_tar_pull_start w | Raw => w_raw_pull_start w end.

(** The state in which a transfer leaves its loop after a callback has
    asked for the exit value [code], with [added] the lines logged since
    the loop was entered in state [st]. *)
Definition stopped_state (code : Z) (added : list event) (st : State)
  : State :=
  mkState (arg_image_root st) (arg_verify st) (arg_pull_flags st)
          (ev_signals st) (Some code) (added ++ trace st).

(** The helpers [H] with other suffix strippers. *)
Definition with_strip (H : ImportHelpers) (f : string -> Z * string)
  : ImportHelpers :=
  Build_ImportHelpers parse_boolean import_verify_from_string
    http_url_is_valid import_url_last_component f f hostname_is_valid.

Definition dash_url : string := "https://example.com/-".
Definition ftp_url : string := "ftp://example.com/foo.tar".

(** The five flags of [PullFlags]. *)
Definition pull_flags_all : list Z :=
  [PULL_FORCE; PULL_SETTINGS; PULL_ROOTHASH; PULL_ROOTHASH_SIGNATURE;
   PULL_VERITY].

(** * Properties *)

(** ** Flag bits *)

Lemma FLAGS_SET_bit (k v : Z) :
  0 <= k -> FLAGS_SET v (Z.shiftl 1 k) = Z.testbit v k.
Proof.
  intros Hk. unfold FLAGS_SET. rewrite Z.shiftl_1_l.
  destruct (Z.testbit v k) eqn:E.
  - apply Z.eqb_eq. apply Z.bits_inj'. intros n Hn.
    rewrite Z.land_spec, Z.lnot_spec, Z.pow2_bits_eqb, Z.bits_0 by lia.
    destruct (Z.eqb_spec k n) as [->|]; [rewrite E|]; now rewrite ?andb_false_r.
  - apply Z.eqb_neq. intros H0.
    assert (T : Z.testbit (Z.land (Z.lnot v) (2 ^ k)) k = true).
    { rewrite Z.land_spec, Z.lnot_spec, Z.pow2_bits_eqb, E, Z.eqb_refl by lia.
      reflexivity. }
    rewrite H0, Z.bits_0 in T. discriminate.
Qed.

Lemma testbit_UPDATE_FLAG (k v b j : Z) :
  0 <= k -> 0 <= j ->
  Z.testbit (UPDATE_FLAG v (Z.shiftl 1 k) b) j
  = if k =? j then c_true b else Z.testbit v j.
Proof.
  intros Hk Hj. unfold UPDATE_FLAG. rewrite Z.shiftl_1_l.
  destruct (c_true b).
  - rewrite Z.lor_spec, Z.pow2_bits_eqb by lia.
    destruct (k =? j); [apply orb_true_r | apply orb_false_r].
  - rewrite Z.land_spec, Z.lnot_spec, Z.pow2_bits_eqb by lia.
    destruct (k =? j); [apply andb_false_r | apply andb_true_r].
Qed.

Lemma testbit_lor_flag (k v j : Z) :
  0 <= k -> 0 <= j ->
  Z.testbit (Z.lor v (Z.shiftl 1 k)) j = (k =? j) || Z.testbit v j.
Proof.
  intros Hk Hj. rewrite Z.shiftl_1_l, Z.lor_spec, Z.pow2_bits_eqb by lia.
  apply orb_comm.
Qed.

(** Unfolds the monad and the state accessors of a straight-line piece of
    code. *)
Ltac run_c :=
  cbv [bind pure when return_of return_ call call_void emit read abort block
       set_arg_pull_flags set_arg_verify set_arg_image_root SET_FLAG
       log_error_errno log_info log_notice log_oom version help
       logged with_verify];
  cbn [fst snd arg_pull_flags arg_verify arg_image_root ev_signals ev_exit
       trace app negb].

(** Rewrites the bit of a flag word after the updates of [parse_argv]. *)
Ltac flag_bits :=
  unfold PULL_FORCE, PULL_SETTINGS, PULL_ROOTHASH, PULL_ROOTHASH_SIGNATURE,
    PULL_VERITY in *;
  rewrite ?FLAGS_SET_bit in * by lia;
  rewrite ?testbit_UPDATE_FLAG, ?testbit_lor_flag by lia;
  cbn [Z.eqb Pos.eqb orb].

(** Evaluates the tests of the [switch] on a known option code. *)
Ltac pick_case :=
  cbv [CHAR_h CHAR_QUESTION ARG_VERSION ARG_FORCE ARG_IMAGE_ROOT ARG_VERIFY
       ARG_SETTINGS ARG_ROOTHASH ARG_ROOTHASH_SIGNATURE ARG_VERITY c_true];
  cbn [Z.eqb Z.ltb Z.compare Pos.eqb negb].

(** Case analysis on the [switch] of [parse_argv] and on its error tests. *)
Ltac split_cases :=
  unfold parse_argv_case;
  repeat match goal with
    | |- context [if ?a =? ?b then _ else _] =>
        let E := fresh "E" in destruct (Z.eqb_spec a b) as [E|E]
    end.

Ltac split_errors :=
  repeat match goal with
    | |- context [if ?a <? ?b then _ else _] =>
        let E := fresh "E" in destruct (Z.ltb_spec a b) as [E|E]; run_c
    | |- context [if negb (c_true ?r) then _ else _] =>
        let E := fresh "E" in destruct (c_true r) eqn:E; run_c
    end.

Section ParseArgv.

Context {H : ImportHelpers} (w : World).

Lemma parse_argv_loop_cons (o : getopt_ret) (rest : list getopt_ret)
      (st : State) :
  parse_argv_loop w (o :: rest) st
  = match parse_argv_case w o st with
    | (Next _, st1)     => parse_argv_loop w rest st1
    | (Returned r, st1) => (Returned r, st1)
    | (Aborted, st1)    => (Aborted, st1)
    | (Blocked, st1)    => (Blocked, st1)
    end.
Proof. reflexivity. Qed.

Lemma parse_argv_loop_app (pre post : list getopt_ret) (st st1 : State) :
  parse_argv_loop w pre st = (Next tt, st1) ->
  parse_argv_loop w (pre ++ post) st = parse_argv_loop w post st1.
Proof.
  revert st. induction pre as [|o pre IH]; intros st Hpre.
  - cbn in Hpre. injection Hpre as <-. reflexivity.
  - cbn [app]. rewrite parse_argv_loop_cons in *.
    destruct (parse_argv_case w o st) as [[[]|r| |] st2];
      try discriminate. now apply IH.
Qed.

(** A [return] inside the option loop never hands back a positive value:
    [parse_argv] answers 1 only after the last option. *)
Lemma parse_argv_case_returned (o : getopt_ret) (st st1 : State) (r : Z) :
  parse_argv_case w o st = (Returned r, st1) -> r <= 0.
Proof.
  split_cases; run_c; split_errors;
    intros Hr; try discriminate; injection Hr as <- _;
    unfold abs, SYNTHETIC_ERRNO, EINVAL; lia.
Qed.

Lemma parse_argv_loop_returned (opts : list getopt_ret) (st st1 : State)
      (r : Z) :
  parse_argv_loop w opts st = (Returned r, st1) -> r <= 0.
Proof.
  revert st. induction opts as [|o opts IH]; intros st.
  - discriminate.
  - rewrite parse_argv_loop_cons.
    destruct (parse_argv_case w o st) as [[[]|r'| |] st2] eqn:E;
      try discriminate.
    + apply IH.
    + intros Hr. injection Hr as <- _.
      eapply parse_argv_case_returned; eassumption.
Qed.

Lemma parse_argv_accepts (opts : list getopt_ret) (st st1 : State) :
  parse_argv w opts st = (Returned 1, st1) <->
  parse_argv_loop w opts st = (Next tt, st1).
Proof.
  unfold parse_argv, bind, return_.
  destruct (parse_argv_loop w opts st) as [[[]|r| |] st2] eqn:E;
    split; intros Hr; try discriminate.
  - now injection Hr as <-.
  - now injection Hr as <-.
  - injection Hr as -> <-.
    apply parse_argv_loop_returned in E. lia.
Qed.

(** *** The FORCE bit *)

Lemma parse_argv_case_keeps_force (o : getopt_ret) (st : State) :
  Z.testbit (arg_pull_flags st) 0 = true ->
  Z.testbit (arg_pull_flags (snd (parse_argv_case w o st))) 0 = true.
Proof.
  intros Hf. split_cases; run_c; split_errors; flag_bits; auto.
Qed.

Lemma parse_argv_loop_keeps_force (opts : list getopt_ret) (st : State) :
  Z.testbit (arg_pull_flags st) 0 = true ->
  Z.testbit (arg_pull_flags (snd (parse_argv_loop w opts st))) 0 = true.
Proof.
  revert st. induction opts as [|o opts IH]; intros st Hf; [exact Hf|].
  rewrite parse_argv_loop_cons.
  pose proof (parse_argv_case_keeps_force o st Hf) as Hc.
  destruct (parse_argv_case w o st) as [[[]|r| |] st2]; cbn [snd] in *; auto.
Qed.

Lemma parse_argv_case_force (o : getopt_ret) (st : State) :
  c o = ARG_FORCE ->
  exists st1, parse_argv_case w o st = (Next tt, st1) /\
              Z.testbit (arg_pull_flags st1) 0 = true.
Proof.
  intros Hc. unfold parse_argv_case. rewrite Hc. pick_case. run_c.
  eexists; split; [reflexivity|].
  cbn [arg_pull_flags]. now flag_bits.
Qed.

Lemma parse_argv_loop_force (opts : list getopt_ret) (st st1 : State) :
  (exists o, In o opts /\ c o = ARG_FORCE) ->
  parse_argv_loop w opts st = (Next tt, st1) ->
  Z.testbit (arg_pull_flags st1) 0 = true.
Proof.
  revert st. induction opts as [|o opts IH]; intros st [o' [Hin Hc]] Hrun.
  - destruct Hin.
  - rewrite parse_argv_loop_cons in Hrun. destruct Hin as [->|Hin].
    + destruct (parse_argv_case_force o' st Hc) as [st2 [E Hb]].
      rewrite E in Hrun.
      pose proof (parse_argv_loop_keeps_force opts st2 Hb) as Hk.
      now rewrite Hrun in Hk.
    + destruct (parse_argv_case w o st) as [[[]|r| |] st2]; try discriminate.
      apply (IH st2); [exists o'; auto | exact Hrun].
Qed.

(** *** The ROOTHASH_SIGNATURE bit *)

Lemma parse_argv_case_keeps_signature_off (o : getopt_ret) (st : State) :
  (c o = ARG_ROOTHASH_SIGNATURE -> parse_boolean (optarg o) <= 0) ->
  Z.testbit (arg_pull_flags st) 3 = false ->
  Z.testbit (arg_pull_flags (snd (parse_argv_case w o st))) 3 = false.
Proof.
  intros Ho Hf. split_cases; run_c; split_errors; flag_bits; auto.
  specialize (Ho E6). unfold c_true.
  replace (parse_boolean (optarg o)) with 0 by lia. reflexivity.
Qed.

Lemma parse_argv_loop_keeps_signature_off (opts : list getopt_ret)
      (st : State) :
  (forall o, In o opts -> c o = ARG_ROOTHASH_SIGNATURE ->
             parse_boolean (optarg o) <= 0) ->
  Z.testbit (arg_pull_flags st) 3 = false ->
  Z.testbit (arg_pull_flags (snd (parse_argv_loop w opts st))) 3 = false.
Proof.
  revert st. induction opts as [|o opts IH]; intros st Ho Hf; [exact Hf|].
  rewrite parse_argv_loop_cons.
  assert (Hc := parse_argv_case_keeps_signature_off o st
                  (Ho o (or_introl eq_refl)) Hf).
  destruct (parse_argv_case w o st) as [[[]|r| |] st2]; cbn [snd] in *; auto.
  apply IH; auto. intros o' Hin. apply Ho. now right.
Qed.

Lemma parse_argv_case_roothash_off (v : string) (st : State) :
  parse_boolean v = 0 ->
  exists st1,
    parse_argv_case w (mkOpt ARG_ROOTHASH v) st = (Next tt, st1) /\
    Z.testbit (arg_pull_flags st1) 2 = false /\
    Z.testbit (arg_pull_flags st1) 3 = false.
Proof.
  intros Hv. unfold parse_argv_case. cbn [c optarg]. rewrite Hv.
  pick_case. run_c. eexists; split; [reflexivity|].
  cbn [arg_pull_flags]. flag_bits. now split.
Qed.

Lemma parse_argv_case_signature (v : string) (st : State) :
  0 <= parse_boolean v ->
  exists st1,
    parse_argv_case w (mkOpt ARG_ROOTHASH_SIGNATURE v) st = (Next tt, st1) /\
    (forall j, 0 <= j ->
       Z.testbit (arg_pull_flags st1) j
       = if 3 =? j then c_true (parse_boolean v)
         else Z.testbit (arg_pull_flags st) j).
Proof.
  intros Hv. unfold parse_argv_case. cbn [c optarg]. pick_case.
  run_c. destruct (Z.ltb_spec (parse_boolean v) 0); [lia|]. run_c.
  eexists; split; [reflexivity|]. intros j Hj. cbn [arg_pull_flags].
  now flag_bits.
Qed.

Lemma parse_argv_loop_split (pre post : list getopt_ret) (st st1 : State) :
  parse_argv_loop w (pre ++ post) st = (Next tt, st1) ->
  exists st0, parse_argv_loop w pre st = (Next tt, st0) /\
              parse_argv_loop w post st0 = (Next tt, st1).
Proof.
  revert st. induction pre as [|o pre IH]; intros st Hrun.
  - exists st. now split.
  - cbn [app] in Hrun. rewrite parse_argv_loop_cons in *.
    destruct (parse_argv_case w o st) as [[[]|r| |] st2];
      try discriminate. now apply IH.
Qed.

Lemma parse_argv_app (pre post : list getopt_ret) (st st0 : State) :
  parse_argv w pre st = (Returned 1, st0) ->
  parse_argv w (pre ++ post) st = parse_argv w post st0.
Proof.
  intros Hpre. apply parse_argv_accepts in Hpre. unfold parse_argv, bind.
  now rewrite (parse_argv_loop_app pre post st st0 Hpre).
Qed.

Lemma parse_argv_state (opts : list getopt_ret) (st : State) :
  snd (parse_argv w opts st) = snd (parse_argv_loop w opts st).
Proof.
  unfold parse_argv, bind, return_.
  now destruct (parse_argv_loop w opts st) as [[[]|r| |] st2].
Qed.

(** *** The claims on option parsing *)

(** C7: with no option on the command line [parse_argv] succeeds and
    leaves the defaults of lines 22-24 in place: SETTINGS, ROOTHASH,
    ROOTHASH_SIGNATURE and VERITY set, FORCE unset, verify mode
    SIGNATURE. *)
Theorem default_policy :
  parse_argv w [] initial_state = (Returned 1, initial_state) /\
  FLAGS_SET (arg_pull_flags initial_state) PULL_SETTINGS = true /\
  FLAGS_SET (arg_pull_flags initial_state) PULL_ROOTHASH = true /\
  FLAGS_SET (arg_pull_flags initial_state) PULL_ROOTHASH_SIGNATURE = true /\
  FLAGS_SET (arg_pull_flags initial_state) PULL_VERITY = true /\
  FLAGS_SET (arg_pull_flags initial_state) PULL_FORCE = false /\
  arg_verify initial_state = IMPORT_VERIFY_SIGNATURE.
Proof. repeat split. Qed.

(** C10: option parsing never clears the FORCE bit.  Whatever options are
    processed and however the parse ends, a FORCE bit that was set is
    still set; and a command line on which --force occurs and that
    [parse_argv] accepts ends with FORCE set. *)
Theorem force_is_monotone (opts : list getopt_ret) (st : State) :
  (FLAGS_SET (arg_pull_flags st) PULL_FORCE = true ->
   FLAGS_SET (arg_pull_flags (snd (parse_argv w opts st))) PULL_FORCE
   = true) /\
  (forall st1,
      (exists o, In o opts /\ c o = ARG_FORCE) ->
      parse_argv w opts st = (Returned 1, st1) ->
      FLAGS_SET (arg_pull_flags st1) PULL_FORCE = true).
Proof.
  split.
  - rewrite parse_argv_state. flag_bits.
    apply parse_argv_loop_keeps_force.
  - intros st1 Hin Hrun. apply parse_argv_accepts in Hrun. flag_bits.
    eapply parse_argv_loop_force; eassumption.
Qed.

(** C1, as the code has it: turning the root hash off turns the root hash
    signature off at that point of the command line, and it stays off
    unless a later --roothash-signature option turns it on again.  For
    [vf] a false and [vt] a true boolean literal: a command line that
    [parse_argv] accepts and that has --roothash=vf followed by no
    --roothash-signature option with a true value ends with
    ROOTHASH_SIGNATURE off; --roothash-signature=vt --roothash=vf ends
    with both bits off; --roothash=vf --roothash-signature=vt ends with
    ROOTHASH off and ROOTHASH_SIGNATURE on. *)
Theorem roothash_off_implies_signature_off (vf vt : string) :
  parse_boolean vf = 0 ->
  0 < parse_boolean vt ->
  (forall pre post st st1,
      (forall o, In o post -> c o = ARG_ROOTHASH_SIGNATURE ->
                 parse_boolean (optarg o) <= 0) ->
      parse_argv w (pre ++ mkOpt ARG_ROOTHASH vf :: post) st
      = (Returned 1, st1) ->
      FLAGS_SET (arg_pull_flags st1) PULL_ROOTHASH_SIGNATURE = false) /\
  (forall st, exists st1,
      parse_argv w [mkOpt ARG_ROOTHASH_SIGNATURE vt; mkOpt ARG_ROOTHASH vf]
        st = (Returned 1, st1) /\
      FLAGS_SET (arg_pull_flags st1) PULL_ROOTHASH = false /\
      FLAGS_SET (arg_pull_flags st1) PULL_ROOTHASH_SIGNATURE = false) /\
  (forall st, exists st1,
      parse_argv w [mkOpt ARG_ROOTHASH vf; mkOpt ARG_ROOTHASH_SIGNATURE vt]
        st = (Returned 1, st1) /\
      FLAGS_SET (arg_pull_flags st1) PULL_ROOTHASH = false /\
      FLAGS_SET (arg_pull_flags st1) PULL_ROOTHASH_SIGNATURE = true).
Proof.
  intros Hf Ht. split; [|split].
  - intros pre post st st1 Hpost Hrun.
    apply parse_argv_accepts, parse_argv_loop_split in Hrun.
    destruct Hrun as [st0 [_ Hrun]]. rewrite parse_argv_loop_cons in Hrun.
    destruct (parse_argv_case_roothash_off vf st0 Hf) as [st2 [E [_ Hoff]]].
    rewrite E in Hrun.
    pose proof (parse_argv_loop_keeps_signature_off post st2 Hpost Hoff)
      as Hk.
    rewrite Hrun in Hk. now flag_bits.
  - intros st.
    destruct (parse_argv_case_signature vt st) as [st2 [E2 _]]; [lia|].
    destruct (parse_argv_case_roothash_off vf st2 Hf) as [st3 [E3 [H2 H3]]].
    exists st3. split; [|now flag_bits].
    apply parse_argv_accepts.
    rewrite parse_argv_loop_cons, E2. cbv beta iota.
      now rewrite parse_argv_loop_cons, E3.
  - intros st.
    destruct (parse_argv_case_roothash_off vf st Hf) as [st2 [E2 [H2 _]]].
    destruct (parse_argv_case_signature vt st2) as [st3 [E3 Hbits]]; [lia|].
    exists st3. split; [|split].
    + apply parse_argv_accepts.
      rewrite parse_argv_loop_cons, E2. cbv beta iota.
      now rewrite parse_argv_loop_cons, E3.
    + flag_bits. rewrite Hbits by lia. exact H2.
    + flag_bits. rewrite Hbits by lia. cbn [Z.eqb Pos.eqb].
      unfold c_true. destruct (Z.eqb_spec (parse_boolean vt) 0); [lia|].
      reflexivity.
Qed.

(** C6: the literals of --verify= and of the boolean options.  After any
    accepted options, --verify=no, =checksum and =signature select the
    modes NO, CHECKSUM and SIGNATURE; any other literal makes the whole
    of [parse_argv] fail with -EINVAL, and so does an invalid boolean
    literal given to --settings, --roothash, --roothash-signature or
    --verity, whatever follows on the command line. *)
Theorem option_literals (HS : HelpersSpec H) (pre : list getopt_ret)
        (st st0 : State) :
  parse_argv w pre st = (Returned 1, st0) ->
  parse_argv w (pre ++ [mkOpt ARG_VERIFY "no"]) st
  = (Returned 1, with_verify IMPORT_VERIFY_NO st0) /\
  parse_argv w (pre ++ [mkOpt ARG_VERIFY "checksum"]) st
  = (Returned 1, with_verify IMPORT_VERIFY_CHECKSUM st0) /\
  parse_argv w (pre ++ [mkOpt ARG_VERIFY "signature"]) st
  = (Returned 1, with_verify IMPORT_VERIFY_SIGNATURE st0) /\
  (forall v post,
      v <> "no" -> v <> "checksum" -> v <> "signature" ->
      fst (parse_argv w (pre ++ mkOpt ARG_VERIFY v :: post) st)
      = Returned (- EINVAL)) /\
  (forall code v post,
      In code [ARG_SETTINGS; ARG_ROOTHASH; ARG_ROOTHASH_SIGNATURE;
               ARG_VERITY] ->
      parse_boolean v < 0 ->
      fst (parse_argv w (pre ++ mkOpt code v :: post) st)
      = Returned (- EINVAL)).
Proof.
  intros Hpre. destruct HS as [Hno Hck Hsig Hother Hbool].
  repeat split.
  - rewrite (parse_argv_app _ _ _ _ Hpre).
    unfold parse_argv, parse_argv_loop, parse_argv_case. cbn [c optarg].
    pick_case. run_c. rewrite Hno. reflexivity.
  - rewrite (parse_argv_app _ _ _ _ Hpre).
    unfold parse_argv, parse_argv_loop, parse_argv_case. cbn [c optarg].
    pick_case. run_c. rewrite Hck. reflexivity.
  - rewrite (parse_argv_app _ _ _ _ Hpre).
    unfold parse_argv, parse_argv_loop, parse_argv_case. cbn [c optarg].
    pick_case. run_c. rewrite Hsig. reflexivity.
  - intros v post H1 H2 H3. rewrite (parse_argv_app _ _ _ _ Hpre).
    unfold parse_argv, bind. rewrite parse_argv_loop_cons.
    unfold parse_argv_case. cbn [c optarg]. pick_case. run_c.
    specialize (Hother v H1 H2 H3).
    destruct (Z.ltb_spec (import_verify_from_string v) 0); [|lia].
    reflexivity.
  - intros code v post Hcode Hv. rewrite (parse_argv_app _ _ _ _ Hpre).
    unfold parse_argv, bind. rewrite parse_argv_loop_cons.
    unfold parse_argv_case. cbn [c optarg].
    assert (E : (parse_boolean v <? 0) = true) by now apply Z.ltb_lt.
    specialize (Hbool v Hv).
    cbn [In] in Hcode.
    destruct Hcode as [<-|[<-|[<-|[<-|[]]]]]; pick_case; run_c;
      rewrite E; cbn [fst]; rewrite Hbool; reflexivity.
Qed.

End ParseArgv.

(** ** What a computation adds to the trace *)

Section Emits.

Variable P : event -> bool.

Lemma emits_pure {A} (a : A) : emits P (pure a).
Proof. intros st. now exists []. Qed.

Lemma emits_return {A} (r : Z) : emits P (@return_ A r).
Proof. intros st. now exists []. Qed.

Lemma emits_abort {A} : emits P (@abort A).
Proof. intros st. now exists []. Qed.

Lemma emits_block {A} : emits P (@block A).
Proof. intros st. now exists []. Qed.

Lemma emits_read {A} (f : State -> A) : emits P (read f).
Proof. intros st. now exists []. Qed.

Lemma emits_emit (e : event) : P e = true -> emits P (emit e).
Proof. intros He st. exists [e]. cbn. now rewrite He. Qed.

Lemma emits_bind {A B} (m : M A) (k : A -> M B) :
  emits P m -> (forall a, emits P (k a)) -> emits P (bind m k).
Proof.
  intros Hm Hk st. unfold bind. destruct (Hm st) as [a1 [E1 F1]].
  destruct (m st) as [[a|r| |] st1]; cbn [snd] in E1;
    try (exists a1; now split).
  destruct (Hk a st1) as [a2 [E2 F2]]. exists (a2 ++ a1).
  rewrite E2, E1, app_assoc, forallb_app, F1, F2. now split.
Qed.

Lemma emits_when (cond : bool) (m : M unit) :
  emits P m -> emits P (when cond m).
Proof. intros Hm. destruct cond; [exact Hm | apply emits_pure]. Qed.

Lemma emits_call (m : M Z) : emits P m -> emits P (call m).
Proof.
  intros Hm st. unfold call. destruct (Hm st) as [a1 [E1 F1]].
  destruct (m st) as [[a|r| |] st1]; exists a1; now split.
Qed.

Lemma emits_call_void (m : M unit) : emits P m -> emits P (call_void m).
Proof.
  intros Hm st. unfold call_void. destruct (Hm st) as [a1 [E1 F1]].
  destruct (m st) as [[a|r| |] st1]; exists a1; now split.
Qed.

Lemma emits_return_of {A} (m : M Z) : emits P m -> emits P (@return_of A m).
Proof.
  intros Hm. apply emits_bind; [exact Hm | intros; apply emits_return].
Qed.

(** A step that touches the event loop or the option variables but not
    the trace. *)
Lemma emits_silent {A} (m : M A) :
  (forall st, trace (snd (m st)) = trace st) -> emits P m.
Proof. intros Hm st. exists []. now split. Qed.

End Emits.

(** Goes through a piece of code statement by statement. *)
Ltac emits_steps :=
  repeat first
    [ apply emits_pure | apply emits_return | apply emits_abort
    | apply emits_block | apply emits_read
    | apply emits_emit; reflexivity
    | apply emits_when | apply emits_call | apply emits_call_void
    | apply emits_return_of
    | apply emits_bind; [|intros]
    | apply emits_silent; intros; reflexivity
    | match goal with
      | |- emits _ (if ?b then _ else _) => destruct b
      | |- emits _ (match ?x with Some _ => _ | None => _ end) => destruct x
      | |- emits _ (let '(_, _) := ?x in _) => destruct x
      end ].

Lemma emits_weaken {A} (P Q : event -> bool) (m : M A) :
  (forall e, P e = true -> Q e = true) -> emits P m -> emits Q m.
Proof.
  intros HPQ Hm st. destruct (Hm st) as [added [E F]]. exists added.
  split; [exact E|]. rewrite forallb_forall in *. auto.
Qed.

Section Transfer.

Context (w : World).

Lemma emits_log_error_errno P error format args :
  P (EvLog LOG_ERR format args) = true ->
  emits P (log_error_errno error format args).
Proof.
  intros HP. unfold log_error_errno. apply emits_bind.
  - now apply emits_emit.
  - intros; apply emits_pure.
Qed.

Lemma emits_handlers :
  emits is_log interrupt_signal_handler /\
  (forall error, emits is_log (on_tar_finished error)) /\
  (forall error, emits is_log (on_raw_finished error)).
Proof.
  unfold interrupt_signal_handler, on_tar_finished, on_raw_finished,
    sd_event_exit, log_notice, log_info.
  repeat split; intros; emits_steps.
Qed.

Lemma emits_sd_event_run (on_signal : M Z) (on_finished : Z -> M unit)
      (events : list loop_event) :
  emits is_log on_signal -> (forall error, emits is_log (on_finished error)) ->
  emits is_log (sd_event_run on_signal on_finished events).
Proof.
  intros Hs Hf. induction events as [|e events IH]; cbn [sd_event_run].
  - apply emits_block.
  - destruct e; unfold sd_event_dispatch; emits_steps; auto.
Qed.

Lemma emits_pull_tar_transfer (url : string) (local : option string) :
  emits not_store (pull_tar_transfer w url local).
Proof.
  destruct emits_handlers as [Hs [Ht _]].
  unfold pull_tar_transfer, sd_event_default, sigprocmask_many,
    sd_event_add_signal, tar_pull_new, tar_pull_start, sd_event_loop,
    log_error_errno, log_info.
  emits_steps.
  apply emits_weaken with (P := is_log); [now intros []|].
  now apply emits_sd_event_run.
Qed.

Lemma emits_pull_raw_transfer (url : string) (local : option string) :
  emits not_store (pull_raw_transfer w url local).
Proof.
  destruct emits_handlers as [Hs [_ Hr]].
  unfold pull_raw_transfer, sd_event_default, sigprocmask_many,
    sd_event_add_signal, raw_pull_new, raw_pull_start, sd_event_loop,
    log_error_errno, log_info.
  emits_steps.
  apply emits_weaken with (P := is_log); [now intros []|].
  now apply emits_sd_event_run.
Qed.

End Transfer.

(** ** The event loop *)

Section Loop.

Context (w : World).

Lemma existsb_signals_of (signo : Z) :
  existsb (Z.eqb signo) (signals_of w) = watched w signo.
Proof.
  unfold signals_of, watched. rewrite existsb_app.
  destruct (Z.eqb_spec signo SIGTERM) as [Et|Et];
    [|destruct (Z.eqb_spec signo SIGINT) as [Ei|Ei]]; try subst signo;
    destruct (0 <=? w_add_signal w SIGINT);
    destruct (0 <=? w_add_signal w SIGTERM);
    cbn [existsb orb andb]; rewrite ?Z.eqb_refl; try reflexivity;
    try (apply Z.eqb_neq in Et; rewrite Et);
    try (apply Z.eqb_neq in Ei; rewrite Ei); reflexivity.
Qed.

Section Run.

Variables (on_signal : M Z) (on_finished : Z -> M unit).

(** Events that pass leave loop and state as they are. *)
Lemma sd_event_run_passes (pre rest : list loop_event) (st : State) :
  forallb (passes w) pre = true ->
  ev_signals st = signals_of w ->
  ev_exit st = None ->
  sd_event_run on_signal on_finished (pre ++ rest) st
  = sd_event_run on_signal on_finished rest st.
Proof.
  intros Hpre Hsig Hexit. induction pre as [|e pre IH]; [reflexivity|].
  cbn [forallb] in Hpre. apply andb_true_iff in Hpre as [He Hpre].
  destruct e as [signo|error| |r]; try discriminate; cbn [passes] in He.
  - cbn [app sd_event_run sd_event_dispatch]. unfold bind at 1 2, read.
    rewrite Hsig, existsb_signals_of.
    apply negb_true_iff in He. rewrite He. cbn [when pure].
    unfold bind. cbn. rewrite Hexit. now apply IH.
  - cbn [app sd_event_run sd_event_dispatch]. unfold bind, read, pure.
    rewrite Hexit. now apply IH.
Qed.

End Run.

(** The completion callbacks stop the loop with the magnitude of the
    puller's error code. *)
Lemma sd_event_run_tar_finished (error : Z) (post : list loop_event)
      (st : State) :
  exists st1,
    sd_event_run interrupt_signal_handler on_tar_finished
      (LoopFinished error :: post) st = (Next (abs error), st1).
Proof.
  cbn [sd_event_run sd_event_dispatch]. unfold on_tar_finished, sd_event_exit.
  run_c. destruct (error =? 0); run_c; eexists; reflexivity.
Qed.

Lemma sd_event_run_raw_finished (error : Z) (post : list loop_event)
      (st : State) :
  exists st1,
    sd_event_run interrupt_signal_handler on_raw_finished
      (LoopFinished error :: post) st = (Next (abs error), st1).
Proof.
  cbn [sd_event_run sd_event_dispatch]. unfold on_raw_finished, sd_event_exit.
  run_c. destruct (error =? 0); run_c; eexists; reflexivity.
Qed.

(** A watched signal stops the loop with EINTR, after one abort notice. *)
Lemma sd_event_run_signal (on_finished : Z -> M unit) (signo : Z)
      (post : list loop_event) (st : State) :
  watched w signo = true ->
  ev_signals st = signals_of w ->
  exists st1,
    sd_event_run interrupt_signal_handler on_finished
      (LoopSignal signo :: post) st = (Next EINTR, st1) /\
    trace st1 = EvLog LOG_NOTICE "Transfer aborted." [] :: trace st.
Proof.
  intros Hw Hsig. cbn [sd_event_run sd_event_dispatch].
  unfold bind at 1 2, read. rewrite Hsig, existsb_signals_of, Hw.
  unfold interrupt_signal_handler, sd_event_exit. run_c.
  eexists; split; reflexivity.
Qed.

(** *** A transfer up to its event loop *)

Ltac enter_loop Hstart :=
  destruct Hstart as [Hd [Hm [Hn Hs]]];
  unfold sd_event_default, sigprocmask_many, sd_event_add_signal,
    tar_pull_new, tar_pull_start, raw_pull_new, raw_pull_start,
    sd_event_loop, loop_state, signals_of;
  run_c;
  repeat (first [ rewrite (proj2 (Z.leb_le _ _) Hd)
                | rewrite (proj2 (Z.ltb_ge _ _) Hd)
                | rewrite (proj2 (Z.leb_le _ _) Hm)
                | rewrite (proj2 (Z.ltb_ge _ _) Hn)
                | rewrite (proj2 (Z.ltb_ge _ _) (Hs _ _))
                | match goal with
                  | |- context [0 <=? w_add_signal w ?s] =>
                      destruct (0 <=? w_add_signal w s)
                  end ];
          run_c);
  reflexivity.

Lemma pull_tar_transfer_enters_loop (url : string) (local : option string)
      (st : State) :
  tar_starts w url local ->
  pull_tar_transfer w url local st
  = (r <- sd_event_run interrupt_signal_handler on_tar_finished
            (w_loop_events w);;
     when (r <? 0)
       (return_of (log_error_errno r "Failed to run event loop: %m" []));;
     log_info "Exiting." [];;
     return_ (- r))%c
      (loop_state w (EvTarPullNew (arg_image_root st))
         (EvTarPullStart url local
            (Z.land (arg_pull_flags st) PULL_FLAGS_MASK_TAR)
            (arg_verify st)) st).
Proof. intros Hstart. unfold pull_tar_transfer. enter_loop Hstart. Qed.

Lemma pull_raw_transfer_enters_loop (url : string) (local : option string)
      (st : State) :
  raw_starts w url local ->
  pull_raw_transfer w url local st
  = (r <- sd_event_run interrupt_signal_handler on_raw_finished
            (w_loop_events w);;
     when (r <? 0)
       (return_of (log_error_errno r "Failed to run event loop: %m" []));;
     log_info "Exiting." [];;
     return_ (- r))%c
      (loop_state w (EvRawPullNew (arg_image_root st))
         (EvRawPullStart url local
            (Z.land (arg_pull_flags st) PULL_FLAGS_MASK_RAW)
            (arg_verify st)) st).
Proof. intros Hstart. unfold pull_raw_transfer. enter_loop Hstart. Qed.

End Loop.

(** ** Verbs *)

Lemma invoke_returned (m : M Z) (st st1 : State) (r : Z) :
  m st = (Returned r, st1) -> invoke m st = (Returned r, st1).
Proof. intros E. unfold invoke. run_c. now rewrite E. Qed.

Lemma invoke_invoke (m : M Z) (st : State) :
  invoke (invoke m) st = invoke m st.
Proof.
  unfold invoke. run_c. now destruct (m st) as [[r|r| |] st1].
Qed.

Lemma invoke_fst (m : M Z) (st : State) (r : Z) :
  fst (m st) = Returned r -> fst (invoke m st) = Returned r.
Proof.
  unfold invoke. run_c. destruct (m st) as [[r'|r'| |] st1]; cbn [fst];
    congruence.
Qed.

Section Dispatch.

Context {H : ImportHelpers} (w : World).

Lemma dispatch_help (args : list string) (st : State) :
  dispatch_verb ("help" :: args) (verbs w) st
  = (Returned 0, logged [EvPrintf help_text [w_program_name w]] st).
Proof. reflexivity. Qed.

Lemma dispatch_pull (k : kind) (url : string) (rest : list string)
      (st : State) :
  (length rest <= 1)%nat ->
  dispatch_verb (verb_of k :: url :: rest) (verbs w) st
  = invoke (pull w k (Z.of_nat (2 + length rest)) (verb_of k :: url :: rest))
      st.
Proof.
  intros Hlen. destruct rest as [|name [|more rest]]; cbn in Hlen; try lia;
    destruct k; reflexivity.
Qed.

Lemma dispatch_unknown (name : string) (args : list string) (st : State) :
  name <> "help" -> name <> "tar" -> name <> "raw" ->
  dispatch_verb (name :: args) (verbs w) st
  = (Returned (- EINVAL),
     logged [EvLog LOG_ERR "Unknown command verb %s." [name]] st).
Proof.
  intros Hh Ht Hr. unfold dispatch_verb, verbs, verbs_find_verb.
  cbn [verb].
  rewrite (proj2 (String.eqb_neq "help" name)) by congruence.
  rewrite (proj2 (String.eqb_neq "tar" name)) by congruence.
  rewrite (proj2 (String.eqb_neq "raw" name)) by congruence.
  reflexivity.
Qed.

Lemma dispatch_count (k : kind) (args : list string) (st : State) :
  length args <> 1%nat -> length args <> 2%nat ->
  exists message,
    dispatch_verb (verb_of k :: args) (verbs w) st
    = (Returned (- EINVAL), logged [EvLog LOG_ERR message []] st).
Proof.
  intros H1 H2. destruct args as [|a [|b [|c args]]];
    try (exfalso; cbn in *; congruence).
  - exists "Too few arguments.". now destruct k.
  - exists "Too many arguments.".
    assert (Hlen : (3 <? Z.of_nat (length (verb_of k :: a :: b :: c :: args)))
                   = true).
    { apply Z.ltb_lt. cbn [length]. lia. }
    assert (Hfew : (Z.of_nat (length (verb_of k :: a :: b :: c :: args)) <? 2)
                   = false).
    { apply Z.ltb_ge. cbn [length]. lia. }
    destruct k; unfold dispatch_verb, verbs, verbs_find_verb; cbn [verb];
      cbn [String.eqb Ascii.eqb Bool.eqb verb_of andb];
      cbn [min_args max_args]; cbn [verb_of] in Hlen, Hfew; run_c.
    all: rewrite Hlen, Hfew; reflexivity.
Qed.

Lemma run_accepted (cl : CommandLine) (st st1 : State) :
  parse_argv w (cl_options cl) st = (Returned 1, st1) ->
  run w cl st
  = invoke (dispatch_verb (cl_positional cl) (verbs w))
      (logged [EvIgnoreSignals SIGPIPE] st1).
Proof.
  intros Hopts. unfold run, pull_main, call at 1, bind at 1.
  rewrite Hopts. change (1 <=? 0) with false. unfold ignore_signals.
  run_c. unfold invoke. run_c. 
  now destruct (dispatch_verb (cl_positional cl) (verbs w) _)
    as [[r|r| |] st2].
Qed.

Lemma main_status (cl : CommandLine) (st : State) (r : Z) :
  fst (run w cl st) = Returned r ->
  fst (main w cl st) = Returned (exit_status r).
Proof.
  unfold main. run_c. destruct (run w cl st) as [[r'|r'| |] st1];
    cbn [fst]; congruence.
Qed.

End Dispatch.

(** ** Name resolution *)

Section Resolve.

Context {H : ImportHelpers} (w : World).

Lemma pull_unfold (k : kind) (argc : Z) (argv : list string) (st : State) :
  pull w k argc argv st
  = match pull_resolve w k argc argv st with
    | (Next local, st1) => pull_transfer w k (argv_at argv 1) local st1
    | (Returned r, st1) => (Returned r, st1)
    | (Aborted, st1)    => (Aborted, st1)
    | (Blocked, st1)    => (Blocked, st1)
    end.
Proof. destruct k; reflexivity. Qed.

(** Lines 64-66 and 150-152 with a name that [empty_or_dash_to_null]
    turns into NULL. *)
Lemma resolve_no_name (k : kind) (verb url name : string) (st : State) :
  http_url_is_valid url = true ->
  empty_or_dash_to_null name = None ->
  pull_resolve w k 3 [verb; url; name] st
  = (Next None, logged [EvLog LOG_INFO "Pulling '%s'." [url]] st).
Proof.
  intros Hurl Hname.
  destruct k; unfold pull_resolve, pull_tar_resolve, pull_raw_resolve;
    cbn [argv_at nth]; rewrite Hurl; change (3 <=? 3) with true; run_c;
    rewrite Hname; reflexivity.
Qed.

(** Lines 54-62 and 140-148 without a name on the command line. *)
Lemma resolve_derived (k : kind) (verb url : string) (st : State) :
  http_url_is_valid url = true ->
  0 <= fst (import_url_last_component url) ->
  pull_resolve w k 2 [verb; url] st
  = pull_resolve w k 3 [verb; url; snd (import_url_last_component url)] st.
Proof.
  intros Hurl Hr.
  destruct k; unfold pull_resolve, pull_tar_resolve, pull_raw_resolve;
    cbn [argv_at nth]; rewrite Hurl; change (3 <=? 3) with true;
    change (3 <=? 2) with false;
    destruct (import_url_last_component url) as [r l]; cbn [fst snd] in *;
    run_c; rewrite (proj2 (Z.ltb_ge _ _) Hr); reflexivity.
Qed.

Lemma resolve_underivable (k : kind) (verb url : string) (st : State) :
  http_url_is_valid url = true ->
  fst (import_url_last_component url) < 0 ->
  pull_resolve w k 2 [verb; url] st
  = (Returned (fst (import_url_last_component url)),
     logged [EvLog LOG_ERR "Failed get final component of URL: %m" []] st).
Proof.
  intros Hurl Hr.
  destruct k; unfold pull_resolve, pull_tar_resolve, pull_raw_resolve;
    cbn [argv_at nth]; rewrite Hurl; change (3 <=? 2) with false;
    destruct (import_url_last_component url) as [r l]; cbn [fst snd] in *;
    run_c; rewrite (proj2 (Z.ltb_lt _ _) Hr); run_c;
    unfold abs; rewrite Z.abs_neq, Z.opp_involutive by lia; reflexivity.
Qed.

(** Takes name resolution up to the collision check of lines 78-88 and
    164-174. *)
Ltac to_lookup Hres :=
  let Hurl := fresh "Hurl" in
  destruct Hres as
    [Hurl [given [kept [Hgiven [Hkept [Hstrip [Hname Hhost]]]]]]];
  unfold pull_resolve, pull_tar_resolve, pull_raw_resolve;
  cbn [strip_suffixes] in *; rewrite Hurl; run_c;
  match goal with
  | |- context [3 <=? ?argc] => destruct (3 <=? argc)
  end;
  [ subst given
  | destruct Hgiven as [Hr Hgiven];
    destruct (import_url_last_component _) as [r l]; cbn [fst snd] in *;
    subst given; run_c; rewrite (proj2 (Z.ltb_ge _ _) Hr) ];
  run_c; rewrite Hkept;
  match goal with
  | |- context [tar_strip_suffixes ?n] => destruct (tar_strip_suffixes n)
  | |- context [raw_strip_suffixes ?n] => destruct (raw_strip_suffixes n)
  end;
  cbn [fst snd] in *; subst; run_c;
  rewrite (proj2 (Z.ltb_ge _ _) Hstrip); run_c; rewrite Hhost; run_c.

Section Lookup.

Variables (k : kind) (argc : Z) (argv : list string) (name : string).
Variable st : State.
Hypothesis Hres : resolves k argc argv name.

Lemma resolve_exists :
  FLAGS_SET (arg_pull_flags st) PULL_FORCE = false ->
  0 <= w_image_find w IMAGE_MACHINE name ->
  pull_resolve w k argc argv st
  = (Returned (- EEXIST),
     logged [EvLog LOG_ERR "Image '%s' already exists." [name];
             EvImageFind IMAGE_MACHINE name] st).
Proof.
  intros Hforce Hfind. destruct k; to_lookup Hres;
    rewrite Hforce; unfold image_find; run_c;
    rewrite (proj2 (Z.ltb_ge _ _) Hfind); reflexivity.
Qed.

Lemma resolve_lookup_fails :
  FLAGS_SET (arg_pull_flags st) PULL_FORCE = false ->
  w_image_find w IMAGE_MACHINE name < 0 ->
  w_image_find w IMAGE_MACHINE name <> - ENOENT ->
  pull_resolve w k argc argv st
  = (Returned (w_image_find w IMAGE_MACHINE name),
     logged [EvLog LOG_ERR
               "Failed to check whether image '%s' exists: %m" [name];
             EvImageFind IMAGE_MACHINE name] st).
Proof.
  intros Hforce Hfind Hne. destruct k; to_lookup Hres;
    rewrite Hforce; unfold image_find; run_c;
    rewrite (proj2 (Z.ltb_lt _ _) Hfind);
    rewrite (proj2 (Z.eqb_neq _ _) Hne); run_c;
    unfold abs; rewrite Z.abs_neq, Z.opp_involutive by lia; reflexivity.
Qed.

Lemma resolve_absent :
  FLAGS_SET (arg_pull_flags st) PULL_FORCE = false ->
  w_image_find w IMAGE_MACHINE name = - ENOENT ->
  pull_resolve w k argc argv st
  = (Next (Some name),
     logged [EvLog LOG_INFO "Pulling '%s', saving as '%s'."
               [argv_at argv 1; name];
             EvImageFind IMAGE_MACHINE name] st).
Proof.
  intros Hforce Hfind. destruct k; to_lookup Hres;
    rewrite Hforce; unfold image_find; run_c;
    rewrite Hfind; reflexivity.
Qed.

Lemma resolve_forced :
  FLAGS_SET (arg_pull_flags st) PULL_FORCE = true ->
  pull_resolve w k argc argv st
  = (Next (Some name),
     logged [EvLog LOG_INFO "Pulling '%s', saving as '%s'."
               [argv_at argv 1; name]] st).
Proof.
  intros Hforce. destruct k; to_lookup Hres;
    rewrite Hforce; reflexivity.
Qed.

End Lookup.

End Resolve.

(** ** The transfer *)

Section Outcome.

Context (w : World).

Lemma emits_pull_transfer (k : kind) (url : string) (local : option string) :
  emits not_store (pull_transfer w k url local).
Proof.
  destruct k; [apply emits_pull_tar_transfer | apply emits_pull_raw_transfer].
Qed.

Lemma pull_transfer_enters_loop (k : kind) (url : string)
      (local : option string) (st : State) :
  starts w k url local ->
  exists on_finished,
    (on_finished = on_tar_finished \/ on_finished = on_raw_finished) /\
    pull_transfer w k url local st
    = (r <- sd_event_run interrupt_signal_handler on_finished
              (w_loop_events w);;
       when (r <? 0)
         (return_of (log_error_errno r "Failed to run event loop: %m" []));;
       log_info "Exiting." [];;
       return_ (- r))%c
        (loop_state w (EvPullNew k (arg_image_root st))
           (start_event k url local st) st).
Proof.
  intros Hstart. destruct k.
  - exists on_tar_finished. split; [now left|].
    now apply pull_tar_transfer_enters_loop.
  - exists on_raw_finished. split; [now right|].
    now apply pull_raw_transfer_enters_loop.
Qed.

(** A transfer that the world lets start does start its puller. *)
Lemma pull_transfer_starts (k : kind) (url : string)
      (local : option string) (st : State) :
  starts w k url local ->
  In (start_event k url local st)
     (trace (snd (pull_transfer w k url local st))).
Proof.
  intros Hstart.
  destruct (pull_transfer_enters_loop k url local st Hstart)
    as [on_finished [Hcb ->]].
  match goal with
  | |- In _ (trace (snd (?m ?s))) =>
      assert (Hm : emits (fun _ => true) m)
  end.
  { destruct emits_handlers as [Hs [Ht Hr]].
    unfold log_error_errno, log_info. emits_steps.
    apply emits_weaken with (P := is_log); [reflexivity|].
    apply emits_sd_event_run; [exact Hs|].
    destruct Hcb as [-> | ->]; assumption. }
  destruct (Hm (loop_state w (EvPullNew k (arg_image_root st))
                  (start_event k url local st) st)) as [added [-> _]].
  apply in_or_app. right. cbn. auto.
Qed.

Section Ending.

Variables (k : kind) (url : string) (local : option string) (st : State).
Variables (pre post : list loop_event).
Hypothesis Hstart : starts w k url local.
Hypothesis Hpre : forallb (passes w) pre = true.

Lemma pull_transfer_finished (error : Z) :
  w_loop_events w = pre ++ LoopFinished error :: post ->
  fst (pull_transfer w k url local st) = Returned (- abs error).
Proof.
  intros Hev. destruct k.
  - cbn [pull_transfer]. rewrite pull_tar_transfer_enters_loop by exact Hstart.
    unfold bind at 1. rewrite Hev, (sd_event_run_passes w) by easy.
    destruct (sd_event_run_tar_finished error post
                (loop_state w (EvTarPullNew (arg_image_root st))
                   (EvTarPullStart url local
                      (Z.land (arg_pull_flags st) PULL_FLAGS_MASK_TAR)
                      (arg_verify st)) st)) as [st1 ->].
    run_c. destruct (Z.ltb_spec (abs error) 0) as [Hneg|_];
      [unfold abs in Hneg; lia | reflexivity].
  - cbn [pull_transfer]. rewrite pull_raw_transfer_enters_loop by exact Hstart.
    unfold bind at 1. rewrite Hev, (sd_event_run_passes w) by easy.
    destruct (sd_event_run_raw_finished error post
                (loop_state w (EvRawPullNew (arg_image_root st))
                   (EvRawPullStart url local
                      (Z.land (arg_pull_flags st) PULL_FLAGS_MASK_RAW)
                      (arg_verify st)) st)) as [st1 ->].
    run_c. destruct (Z.ltb_spec (abs error) 0) as [Hneg|_];
      [unfold abs in Hneg; lia | reflexivity].
Qed.

Lemma pull_transfer_interrupted (signo : Z) :
  watched w signo = true ->
  w_loop_events w = pre ++ LoopSignal signo :: post ->
  fst (pull_transfer w k url local st) = Returned (- EINTR).
Proof.
  intros Hw Hev.
  destruct (pull_transfer_enters_loop k url local st Hstart)
    as [on_finished [_ ->]].
  unfold bind at 1. rewrite Hev, (sd_event_run_passes w) by easy.
  destruct (sd_event_run_signal w on_finished signo post
              (loop_state w (EvPullNew k (arg_image_root st))
                 (start_event k url local st) st) Hw eq_refl)
    as [st1 [-> _]].
  reflexivity.
Qed.

End Ending.

End Outcome.

(** ** The claims on pulling *)

Lemma empty_or_dash_to_null_some (p q : string) :
  empty_or_dash_to_null p = Some q -> q = p.
Proof.
  unfold empty_or_dash_to_null.
  destruct ((p =? "")%string || (p =? "-")%string); congruence.
Qed.

Lemma empty_or_dash_to_null_keeps (p : string) :
  p <> "" -> p <> "-" -> empty_or_dash_to_null p = Some p.
Proof.
  intros He Hd. unfold empty_or_dash_to_null.
  now rewrite (proj2 (String.eqb_neq p "") He),
    (proj2 (String.eqb_neq p "-") Hd).
Qed.

Lemma trace_of_transfer {H : ImportHelpers} (w : World) (k : kind)
      (argc : Z) (argv : list string) (local : option string)
      (line : event) (st : State) :
  not_store line = true ->
  pull_resolve w k argc argv st = (Next local, logged [line] st) ->
  pull w k argc argv st
  = pull_transfer w k (argv_at argv 1) local (logged [line] st) /\
  (exists added,
      trace (snd (pull w k argc argv st)) = added ++ trace st /\
      forallb not_store added = true) /\
  (starts w k (argv_at argv 1) local ->
   In (start_event k (argv_at argv 1) local st)
      (trace (snd (pull w k argc argv st)))).
Proof.
  intros Hline Hres.
  assert (E : pull w k argc argv st
              = pull_transfer w k (argv_at argv 1) local (logged [line] st))
    by now rewrite pull_unfold, Hres.
  rewrite E. split; [reflexivity|split].
  - destruct (emits_pull_transfer w k (argv_at argv 1) local
                (logged [line] st)) as [added [-> Hadded]].
    exists (added ++ [line]). cbn [logged trace].
    rewrite <- app_assoc, forallb_app, Hadded. cbn. now rewrite Hline.
  - intros Hstart.
    apply (pull_transfer_starts w k _ _ (logged [line] st) Hstart).
Qed.

(** C3: the collision check.  When name resolution has reached a non-null
    name: without FORCE, a lookup that finds the image ends the pull with
    -EEXIST after the lookup and one error line, no puller call made; a
    lookup that fails with an error other than -ENOENT ends it with that
    error; with FORCE the pull goes on to the transfer without asking the
    image store, and starts the puller if the world lets it. *)
Theorem collision_check {H : ImportHelpers} (w : World) (k : kind) (argc : Z)
        (argv : list string) (name : string) (st : State) :
  resolves k argc argv name ->
  (FLAGS_SET (arg_pull_flags st) PULL_FORCE = false ->
   0 <= w_image_find w IMAGE_MACHINE name ->
   pull w k argc argv st
   = (Returned (- EEXIST),
      logged [EvLog LOG_ERR "Image '%s' already exists." [name];
              EvImageFind IMAGE_MACHINE name] st)) /\
  (FLAGS_SET (arg_pull_flags st) PULL_FORCE = false ->
   w_image_find w IMAGE_MACHINE name < 0 ->
   w_image_find w IMAGE_MACHINE name <> - ENOENT ->
   pull w k argc argv st
   = (Returned (w_image_find w IMAGE_MACHINE name),
      logged [EvLog LOG_ERR "Failed to check whether image '%s' exists: %m"
                [name];
              EvImageFind IMAGE_MACHINE name] st)) /\
  (FLAGS_SET (arg_pull_flags st) PULL_FORCE = true ->
   pull w k argc argv st
   = pull_transfer w k (argv_at argv 1) (Some name)
       (logged [EvLog LOG_INFO "Pulling '%s', saving as '%s'."
                  [argv_at argv 1; name]] st) /\
   (exists added,
       trace (snd (pull w k argc argv st)) = added ++ trace st /\
       forallb not_store added = true) /\
   (starts w k (argv_at argv 1) (Some name) ->
    In (start_event k (argv_at argv 1) (Some name) st)
       (trace (snd (pull w k argc argv st))))).
Proof.
  intros Hres. split; [|split].
  - intros Hforce Hfind.
    now rewrite pull_unfold, (resolve_exists w k argc argv name st Hres).
  - intros Hforce Hfind Hne.
    now rewrite pull_unfold,
      (resolve_lookup_fails w k argc argv name st Hres).
  - intros Hforce. apply trace_of_transfer; [reflexivity|].
    now apply resolve_forced.
Qed.

(** C5: the name "-".  A pull of a valid URL with "-" as name resolves to
    no local name after a single log line; it goes on to the transfer, which
    depends on no string helper; nothing it does asks the image store; and
    the puller is started without a local name if the world lets it. *)
Theorem dash_means_no_name {H : ImportHelpers} (w : World) (k : kind)
        (verb url : string) (st : State) :
  http_url_is_valid url = true ->
  pull_resolve w k 3 [verb; url; "-"] st
  = (Next None, logged [EvLog LOG_INFO "Pulling '%s'." [url]] st) /\
  pull w k 3 [verb; url; "-"] st
  = pull_transfer w k url None
      (logged [EvLog LOG_INFO "Pulling '%s'." [url]] st) /\
  (exists added,
      trace (snd (pull w k 3 [verb; url; "-"] st)) = added ++ trace st /\
      forallb not_store added = true) /\
  (starts w k url None ->
   In (start_event k url None st)
      (trace (snd (pull w k 3 [verb; url; "-"] st)))).
Proof.
  intros Hurl.
  assert (Hres := resolve_no_name w k verb url "-" st Hurl eq_refl).
  split; [exact Hres|].
  now apply (trace_of_transfer w k 3 [verb; url; "-"] None).
Qed.

(** C9: the empty name.  A pull with "" as name does what the same pull
    with "-" does, whatever the URL; for a valid URL it resolves to no
    local name after a single log line and asks the image store nothing. *)
Theorem empty_name_is_dash {H : ImportHelpers} (w : World) (k : kind)
        (verb url : string) (st : State) :
  pull w k 3 [verb; url; ""] st = pull w k 3 [verb; url; "-"] st /\
  (http_url_is_valid url = true ->
   pull_resolve w k 3 [verb; url; ""] st
   = (Next None, logged [EvLog LOG_INFO "Pulling '%s'." [url]] st) /\
   (exists added,
       trace (snd (pull w k 3 [verb; url; ""] st)) = added ++ trace st /\
       forallb not_store added = true)).
Proof.
  split.
  - destruct k; reflexivity.
  - intros Hurl.
    assert (Hres := resolve_no_name w k verb url "" st Hurl eq_refl).
    split; [exact Hres|].
    now destruct (trace_of_transfer w k 3 [verb; url; ""] None
                    (EvLog LOG_INFO "Pulling '%s'." [url]) st
                    eq_refl Hres) as [_ [Hadded _]].
Qed.

Lemma invoke_ext (m m' : M Z) (st : State) :
  m st = m' st -> invoke m st = invoke m' st.
Proof. intros E. unfold invoke. run_c. now rewrite E. Qed.

Lemma invoke_snd (m : M Z) (st : State) : snd (invoke m st) = snd (m st).
Proof. unfold invoke. run_c. now destruct (m st) as [[r|r| |] st1]. Qed.

Lemma run_pull {H : ImportHelpers} (w : World) (cl : CommandLine)
      (st st1 : State) (k : kind) (url : string) (rest : list string) :
  parse_argv w (cl_options cl) st = (Returned 1, st1) ->
  cl_positional cl = verb_of k :: url :: rest ->
  (length rest <= 1)%nat ->
  run w cl st
  = invoke (pull w k (Z.of_nat (2 + length rest)) (verb_of k :: url :: rest))
      (logged [EvIgnoreSignals SIGPIPE] st1).
Proof.
  intros Hopts Hpos Hlen. rewrite (run_accepted w cl st st1 Hopts), Hpos.
  rewrite (invoke_ext _ _ _ (dispatch_pull w k url rest _ Hlen)).
  apply invoke_invoke.
Qed.

Lemma status_of_transfer {H : ImportHelpers} (w : World) (cl : CommandLine)
      (st : State) (e : loop_event) (r : Z) :
  completes w cl st e ->
  (forall k url local st2,
      starts w k url local ->
      forall pre post,
        w_loop_events w = pre ++ e :: post ->
        forallb (passes w) pre = true ->
        fst (pull_transfer w k url local st2) = Returned r) ->
  fst (run w cl st) = Returned r /\
  fst (main w cl st) = Returned (exit_status r).
Proof.
  intros [st1 [k [url [rest [local [st2 [pre [post Hc]]]]]]]] Hend.
  destruct Hc as [Hopts [Hpos [Hlen [Hres [Hstart [Hev Hpre]]]]]].
  assert (Hrun : fst (run w cl st) = Returned r);
    [|split; [exact Hrun | now apply main_status]].
  rewrite (run_pull w cl st st1 k url rest Hopts Hpos Hlen).
  apply invoke_fst. rewrite pull_unfold, Hres. cbn [argv_at nth].
  now apply (Hend k url local st2 Hstart pre post).
Qed.

(** C2: the exit contract.  For an invocation that gets to run its event
    loop, [run] returns the negated exit value of the loop and the status of
    the process is that exit value: 0 when the first event that ends the
    loop is the puller's completion with error code 0, the magnitude of the
    error code when it is a completion with another code, and EINTR when it
    is the delivery of a watched signal. *)
Theorem exit_contract {H : ImportHelpers} (w : World) (cl : CommandLine)
        (st : State) (e : loop_event) :
  completes w cl st e ->
  (e = LoopFinished 0 ->
   fst (run w cl st) = Returned 0 /\
   fst (main w cl st) = Returned 0) /\
  (forall error,
      e = LoopFinished error -> error <> 0 -> INT_MIN < error ->
      fst (run w cl st) = Returned (- Z.abs error) /\
      fst (main w cl st) = Returned (Z.abs error)) /\
  (forall signo,
      e = LoopSignal signo -> watched w signo = true ->
      fst (run w cl st) = Returned (- EINTR) /\
      fst (main w cl st) = Returned EINTR).
Proof.
  intros Hc. split; [|split].
  - intros ->. apply (status_of_transfer w cl st _ 0 Hc).
    intros k url local st2 Hstart pre post Hev Hpre.
    now apply (pull_transfer_finished w k url local st2 pre post Hstart Hpre 0).
  - intros error -> Hnz Hmin.
    replace (Z.abs error) with (exit_status (- abs error)) at 2
      by (unfold exit_status, abs; lia).
    apply (status_of_transfer w cl st _ _ Hc).
    intros k url local st2 Hstart pre post Hev Hpre.
    now apply (pull_transfer_finished w k url local st2 pre post Hstart Hpre).
  - intros signo -> Hw.
    change EINTR with (exit_status (- EINTR)) at 2.
    apply (status_of_transfer w cl st _ _ Hc).
    intros k url local st2 Hstart pre post Hev Hpre.
    now apply (pull_transfer_interrupted w k url local st2 pre post Hstart
                 Hpre signo).
Qed.

(** C8: the verbs.  "help" with any arguments prints the usage text and
    returns 0; "tar" and "raw" followed by a URL and at most a name enter
    [pull_tar] and [pull_raw], with the verb counted in [argc]; any other
    verb, no verb at all, and "tar" or "raw" followed by no word or by more
    than two fail with -EINVAL after one error line and nothing else. *)
Theorem verb_dispatch {H : ImportHelpers} (w : World) (st : State) :
  (forall args,
      pull_main w ("help" :: args) st
      = (Returned 0, logged [EvPrintf help_text [w_program_name w]] st)) /\
  (forall k url rest,
      (length rest <= 1)%nat ->
      pull_main w (verb_of k :: url :: rest) st
      = invoke (pull w k (Z.of_nat (2 + length rest))
                  (verb_of k :: url :: rest)) st) /\
  (forall name args,
      name <> "help" -> name <> "tar" -> name <> "raw" ->
      pull_main w (name :: args) st
      = (Returned (- EINVAL),
         logged [EvLog LOG_ERR "Unknown command verb %s." [name]] st)) /\
  pull_main w [] st
  = (Returned (- EINVAL),
     logged [EvLog LOG_ERR "Command verb required." []] st) /\
  (forall k args,
      length args <> 1%nat -> length args <> 2%nat ->
      exists message,
        pull_main w (verb_of k :: args) st
        = (Returned (- EINVAL), logged [EvLog LOG_ERR message []] st)).
Proof.
  change (pull_main w) with (fun argv => invoke (dispatch_verb argv (verbs w))).
  cbv beta. split; [|split; [|split; [|split]]].
  - intros args. apply invoke_returned, dispatch_help.
  - intros k url rest Hlen.
    rewrite (invoke_ext _ _ _ (dispatch_pull w k url rest _ Hlen)).
    apply invoke_invoke.
  - intros name args Hh Ht Hr. now apply invoke_returned, dispatch_unknown.
  - reflexivity.
  - intros k args H1 H2.
    destruct (dispatch_count w k args st H1 H2) as [message E].
    exists message. now apply invoke_returned.
Qed.

Lemma spec_last_component_error (url : string) :
  fst (SpecHelpers.import_url_last_component url) < 0 ->
  fst (SpecHelpers.import_url_last_component url) = - EINVAL.
Proof.
  unfold SpecHelpers.import_url_last_component.
  destruct (SpecHelpers.after_scheme url) as [rest|]; [|reflexivity].
  destruct (SpecHelpers.final_segment rest false "" =? "")%string;
    cbn [fst]; [reflexivity | lia].
Qed.

(** C4, as the code has it: the name taken from the URL.  Without a name on
    the command line a pull of a valid URL whose last component can be
    extracted goes on as if that component had been given as the name.
    When the component is neither empty nor the placeholder "-", every
    resolution that succeeds yields the component with its suffixes
    stripped, and resolution does succeed when the suffixes strip, what is
    left is a valid host name and FORCE is set or no such image exists; a
    component "-" yields no local name instead.  When no component can be
    extracted the pull ends with the helper's error, which is -EINVAL for
    the helper of the spec.  For
    "tar https://example.com/images/foo.tar.xz" the name is "foo" and the
    tar puller is started with it; for "tar https://example.com/" the
    invocation returns -EINVAL. *)
Theorem name_from_url :
  (forall (H : ImportHelpers) (w : World) (k : kind) (verb url : string)
          (st : State),
      http_url_is_valid url = true ->
      (0 <= fst (import_url_last_component url) ->
       pull w k 2 [verb; url] st
       = pull w k 3 [verb; url; snd (import_url_last_component url)] st) /\
      (0 <= fst (import_url_last_component url) ->
       snd (import_url_last_component url) <> "" ->
       snd (import_url_last_component url) <> "-" ->
       (forall local st1,
           pull_resolve w k 2 [verb; url] st = (Next local, st1) ->
           local
           = Some (snd (strip_suffixes k
                          (snd (import_url_last_component url))))) /\
       (0 <= fst (strip_suffixes k (snd (import_url_last_component url))) ->
        hostname_is_valid
          (snd (strip_suffixes k (snd (import_url_last_component url)))) 0
        = true ->
        FLAGS_SET (arg_pull_flags st) PULL_FORCE = true \/
        w_image_find w IMAGE_MACHINE
          (snd (strip_suffixes k (snd (import_url_last_component url))))
        = - ENOENT ->
        exists st1,
          pull_resolve w k 2 [verb; url] st
          = (Next (Some (snd (strip_suffixes k
                                (snd (import_url_last_component url))))),
             st1))) /\
      (0 <= fst (import_url_last_component url) ->
       snd (import_url_last_component url) = "-" ->
       pull_resolve w k 2 [verb; url] st
       = (Next None, logged [EvLog LOG_INFO "Pulling '%s'." [url]] st)) /\
      (fst (import_url_last_component url) < 0 ->
       pull w k 2 [verb; url] st
       = (Returned (fst (import_url_last_component url)),
          logged [EvLog LOG_ERR "Failed get final component of URL: %m" []]
            st))) /\
  (forall url,
      fst (SpecHelpers.import_url_last_component url) < 0 ->
      fst (SpecHelpers.import_url_last_component url) = - EINVAL) /\
  (forall events,
      pull_resolve (H := SpecHelpers.helpers) (quiet_world events) Tar 2
        ["tar"; foo_url] initial_state
      = (Next (Some "foo"),
         logged [EvLog LOG_INFO "Pulling '%s', saving as '%s'."
                   [foo_url; "foo"];
                 EvImageFind IMAGE_MACHINE "foo"] initial_state) /\
      In (EvTarPullStart foo_url (Some "foo")
            (Z.land (arg_pull_flags initial_state) PULL_FLAGS_MASK_TAR)
            IMPORT_VERIFY_SIGNATURE)
         (trace (snd (run (H := SpecHelpers.helpers) (quiet_world events)
                        (mkCommandLine [] ["tar"; foo_url]) initial_state)))) /\
  (forall events,
      fst (run (H := SpecHelpers.helpers) (quiet_world events)
             (mkCommandLine [] ["tar"; bare_url]) initial_state)
      = Returned (- EINVAL)).
Proof.
  split; [|split; [|split]].
  - intros H w k verb url st Hurl. split; [|split; [|split]].
    + intros Hr. rewrite !pull_unfold. cbn [argv_at nth].
      now rewrite resolve_derived.
    + intros Hr He Hd.
      assert (Hres : forall name,
                 0 <= fst (strip_suffixes k
                             (snd (import_url_last_component url))) ->
                 name = snd (strip_suffixes k
                               (snd (import_url_last_component url))) ->
                 hostname_is_valid name 0 = true ->
                 resolves k 2 [verb; url] name).
      { intros name Hstrip Hname Hhost. split; [exact Hurl|].
        exists (snd (import_url_last_component url)),
          (snd (import_url_last_component url)).
        change (3 <=? 2) with false. cbn [argv_at nth].
        repeat split; try assumption.
        now apply empty_or_dash_to_null_keeps. }
      split.
      * intros local st1.
        destruct k; unfold pull_resolve, pull_tar_resolve, pull_raw_resolve;
          cbn [argv_at nth strip_suffixes]; rewrite Hurl;
          change (3 <=? 2) with false;
          destruct (import_url_last_component url) as [r l];
          cbn [fst snd] in *; run_c; rewrite (proj2 (Z.ltb_ge _ _) Hr);
          run_c; rewrite (empty_or_dash_to_null_keeps l He Hd);
          match goal with
          | |- context [tar_strip_suffixes l] =>
              destruct (tar_strip_suffixes l) as [r2 ll]
          | |- context [raw_strip_suffixes l] =>
              destruct (raw_strip_suffixes l) as [r2 ll]
          end;
          cbn [fst snd]; run_c; unfold image_find; run_c;
          repeat match goal with
            | |- context [if ?b then _ else _] => destruct b; run_c
            end;
          intros E; try discriminate; injection E as <- _; reflexivity.
      * intros Hstrip Hhost Hgo.
        destruct (FLAGS_SET (arg_pull_flags st) PULL_FORCE) eqn:Hforce.
        -- eexists.
           now apply (resolve_forced w k 2 [verb; url] _ st
                        (Hres _ Hstrip eq_refl Hhost)).
        -- destruct Hgo as [Hgo|Hgo]; [discriminate|]. eexists.
           now apply (resolve_absent w k 2 [verb; url] _ st
                        (Hres _ Hstrip eq_refl Hhost)).
    + intros Hr Hd.
      rewrite (resolve_derived w k verb url st Hurl Hr), Hd.
      now apply resolve_no_name.
    + intros Hr. now rewrite pull_unfold, resolve_underivable.
  - exact spec_last_component_error.
  - intros events.
    assert (Hres :
      pull_resolve (H := SpecHelpers.helpers) (quiet_world events) Tar 2
        ["tar"; foo_url] initial_state
      = (Next (Some "foo"),
         logged [EvLog LOG_INFO "Pulling '%s', saving as '%s'."
                   [foo_url; "foo"];
                 EvImageFind IMAGE_MACHINE "foo"] initial_state))
      by (vm_compute; reflexivity).
    split; [exact Hres|].
    rewrite (run_pull (H := SpecHelpers.helpers) (quiet_world events)
               (mkCommandLine [] ["tar"; foo_url]) initial_state initial_state
               Tar foo_url [] eq_refl eq_refl (le_S _ _ (le_n 0))).
    rewrite invoke_snd, pull_unfold.
    assert (Hres' :
      pull_resolve (H := SpecHelpers.helpers) (quiet_world events) Tar
        (Z.of_nat (2 + length (@nil string))) [verb_of Tar; foo_url]
        (logged [EvIgnoreSignals SIGPIPE] initial_state)
      = (Next (Some "foo"),
         logged [EvLog LOG_INFO "Pulling '%s', saving as '%s'."
                   [foo_url; "foo"];
                 EvImageFind IMAGE_MACHINE "foo"]
           (logged [EvIgnoreSignals SIGPIPE] initial_state)))
      by (vm_compute; reflexivity).
    rewrite Hres'. cbn [argv_at nth].
    exact (pull_transfer_starts (quiet_world events) Tar foo_url (Some "foo")
             (logged [EvLog LOG_INFO "Pulling '%s', saving as '%s'."
                        [foo_url; "foo"];
                      EvImageFind IMAGE_MACHINE "foo"]
                (logged [EvIgnoreSignals SIGPIPE] initial_state))
             (conj (Z.le_refl 0)
                (conj (Z.le_refl 0)
                   (conj (Z.le_refl 0) (fun _ _ => Z.le_refl 0))))).
  - intros events.
    rewrite (run_pull (H := SpecHelpers.helpers) (quiet_world events)
               (mkCommandLine [] ["tar"; bare_url]) initial_state initial_state
               Tar bare_url [] eq_refl eq_refl (le_S _ _ (le_n 0))).
    apply invoke_fst. vm_compute. reflexivity.
Qed.

(** ** The claims at concrete command lines *)

Lemma spec_helpers_sound : HelpersSpec SpecHelpers.helpers.
Proof.
  split; try reflexivity.
  - intros v Hn Hc Hs. cbn. unfold SpecHelpers.import_verify_from_string.
    rewrite (proj2 (String.eqb_neq v "no") Hn),
      (proj2 (String.eqb_neq v "checksum") Hc),
      (proj2 (String.eqb_neq v "signature") Hs).
    reflexivity.
  - intros v. cbn. unfold SpecHelpers.parse_boolean.
    destruct (existsb _ _); [discriminate|].
    destruct (existsb _ _); [discriminate|]. reflexivity.
Qed.

Lemma completes_quiet (pre post : list loop_event) (e : loop_event) :
  forallb (passes (quiet_world (pre ++ e :: post))) pre = true ->
  completes (H := SpecHelpers.helpers) (quiet_world (pre ++ e :: post))
    (mkCommandLine [] ["tar"; foo_url]) initial_state e.
Proof.
  intros Hpre.
  exists initial_state, Tar, foo_url, [], (Some "foo").
  eexists. exists pre, post.
  split; [reflexivity|]. split; [reflexivity|]. split; [repeat constructor|].
  split; [vm_compute; reflexivity|].
  split; [|split; [reflexivity | exact Hpre]].
  cbn. repeat split; intros; discriminate.
Qed.

(** C1 fails on --roothash=false --roothash-signature=true: the second
    option turns the signature on again: the parse succeeds with ROOTHASH off and
    ROOTHASH_SIGNATURE on. *)
Lemma roothash_signature_reenabled :
  In (mkOpt ARG_ROOTHASH "false") roothash_then_signature /\
  fst (parse_argv (H := SpecHelpers.helpers) (quiet_world [])
         roothash_then_signature initial_state) = Returned 1 /\
  FLAGS_SET
    (arg_pull_flags
       (snd (parse_argv (H := SpecHelpers.helpers) (quiet_world [])
               roothash_then_signature initial_state)))
    PULL_ROOTHASH = false /\
  FLAGS_SET
    (arg_pull_flags
       (snd (parse_argv (H := SpecHelpers.helpers) (quiet_world [])
               roothash_then_signature initial_state)))
    PULL_ROOTHASH_SIGNATURE = true.
Proof. split; [now left|]. vm_compute. auto. Qed.

Lemma force_is_monotone_witness :
  FLAGS_SET (arg_pull_flags forced_state) PULL_FORCE = true /\
  FLAGS_SET
    (arg_pull_flags
       (snd (parse_argv (H := SpecHelpers.helpers) (quiet_world [])
               [mkOpt ARG_SETTINGS "no"; mkOpt ARG_VERIFY "bogus"]
               forced_state)))
    PULL_FORCE = true /\
  FLAGS_SET
    (arg_pull_flags
       (snd (parse_argv (H := SpecHelpers.helpers) (quiet_world [])
               [mkOpt ARG_FORCE ""; mkOpt ARG_ROOTHASH "no"] initial_state)))
    PULL_FORCE = true.
Proof.
  split; [reflexivity|]. split.
  - apply (proj1 (force_is_monotone (H := SpecHelpers.helpers) (quiet_world [])
                    [mkOpt ARG_SETTINGS "no"; mkOpt ARG_VERIFY "bogus"]
                    forced_state)).
    reflexivity.
  - apply (proj2 (force_is_monotone (H := SpecHelpers.helpers) (quiet_world [])
                    [mkOpt ARG_FORCE ""; mkOpt ARG_ROOTHASH "no"]
                    initial_state)).
    + exists (mkOpt ARG_FORCE ""). split; [now left | reflexivity].
    + vm_compute. reflexivity.
Defined.

Lemma roothash_off_implies_signature_off_witness :
  SpecHelpers.parse_boolean "false" = 0 /\
  0 < SpecHelpers.parse_boolean "true" /\
  FLAGS_SET
    (arg_pull_flags
       (snd (parse_argv (H := SpecHelpers.helpers) (quiet_world [])
               ([mkOpt ARG_ROOTHASH_SIGNATURE "true"]
                ++ mkOpt ARG_ROOTHASH "false"
                   :: [mkOpt ARG_ROOTHASH_SIGNATURE "no"; mkOpt ARG_FORCE ""])
               initial_state)))
    PULL_ROOTHASH_SIGNATURE = false.
Proof.
  split; [reflexivity|]. split; [reflexivity|].
  apply (proj1 (roothash_off_implies_signature_off
                  (H := SpecHelpers.helpers) (quiet_world []) "false" "true"
                  eq_refl eq_refl)
           [mkOpt ARG_ROOTHASH_SIGNATURE "true"]
           [mkOpt ARG_ROOTHASH_SIGNATURE "no"; mkOpt ARG_FORCE ""]
           initial_state).
  - intros o [<-|[<-|[]]] Hc; vm_compute; discriminate.
  - vm_compute. reflexivity.
Defined.

Lemma option_literals_witness :
  parse_argv (H := SpecHelpers.helpers) (quiet_world [])
    [mkOpt ARG_FORCE ""] initial_state = (Returned 1, forced_state) /\
  parse_argv (H := SpecHelpers.helpers) (quiet_world [])
    ([mkOpt ARG_FORCE ""] ++ [mkOpt ARG_VERIFY "checksum"]) initial_state
  = (Returned 1, with_verify IMPORT_VERIFY_CHECKSUM forced_state) /\
  fst (parse_argv (H := SpecHelpers.helpers) (quiet_world [])
         ([mkOpt ARG_FORCE ""]
          ++ mkOpt ARG_VERIFY "sha256" :: [mkOpt ARG_VERITY "yes"])
         initial_state) = Returned (- EINVAL) /\
  fst (parse_argv (H := SpecHelpers.helpers) (quiet_world [])
         ([mkOpt ARG_FORCE ""]
          ++ mkOpt ARG_ROOTHASH "maybe" :: [mkOpt ARG_VERITY "yes"])
         initial_state) = Returned (- EINVAL).
Proof.
  assert (Hpre : parse_argv (H := SpecHelpers.helpers) (quiet_world [])
                   [mkOpt ARG_FORCE ""] initial_state
                 = (Returned 1, forced_state)) by reflexivity.
  destruct (option_literals (H := SpecHelpers.helpers) (quiet_world [])
              spec_helpers_sound [mkOpt ARG_FORCE ""] initial_state
              forced_state Hpre) as [_ [Hck [_ [Hother Hbool]]]].
  split; [exact Hpre|]. split; [exact Hck|]. split.
  - apply Hother; discriminate.
  - apply Hbool; [right; left; reflexivity | reflexivity].
Defined.

Lemma exit_contract_witness :
  fst (main (H := SpecHelpers.helpers)
         (quiet_world ([LoopProgress] ++ LoopFinished 0 :: []))
         (mkCommandLine [] ["tar"; foo_url]) initial_state) = Returned 0 /\
  fst (main (H := SpecHelpers.helpers)
         (quiet_world ([LoopProgress; LoopSignal 1]
                       ++ LoopFinished (- 5) :: [LoopSignal SIGINT]))
         (mkCommandLine [] ["tar"; foo_url]) initial_state) = Returned 5 /\
  fst (main (H := SpecHelpers.helpers)
         (quiet_world ([LoopProgress] ++ LoopSignal SIGTERM :: [LoopFinished 0]))
         (mkCommandLine [] ["tar"; foo_url]) initial_state) = Returned EINTR.
Proof.
  split; [|split].
  - apply (proj1 (exit_contract (H := SpecHelpers.helpers) _ _ _ _
                    (completes_quiet [LoopProgress] [] (LoopFinished 0)
                       eq_refl))).
    reflexivity.
  - apply (proj1 (proj2 (exit_contract (H := SpecHelpers.helpers) _ _ _ _
                    (completes_quiet [LoopProgress; LoopSignal 1]
                       [LoopSignal SIGINT] (LoopFinished (- 5)) eq_refl)))
             (- 5)).
    + reflexivity.
    + discriminate.
    + reflexivity.
  - apply (proj2 (proj2 (exit_contract (H := SpecHelpers.helpers) _ _ _ _
                    (completes_quiet [LoopProgress] [LoopFinished 0]
                       (LoopSignal SIGTERM) eq_refl)))
             SIGTERM).
    + reflexivity.
    + reflexivity.
Defined.

Lemma resolves_foo :
  resolves (H := SpecHelpers.helpers) Tar 2 ["tar"; foo_url] "foo".
Proof.
  split; [reflexivity|]. exists "foo.tar.xz", "foo.tar.xz".
  split; [split; [discriminate | reflexivity]|].
  split; [reflexivity|]. split; [discriminate|]. split; reflexivity.
Qed.

Lemma collision_check_witness :
  pull (H := SpecHelpers.helpers) (store_world 0 []) Tar 2 ["tar"; foo_url]
    initial_state
  = (Returned (- EEXIST),
     logged [EvLog LOG_ERR "Image '%s' already exists." ["foo"];
             EvImageFind IMAGE_MACHINE "foo"] initial_state) /\
  pull (H := SpecHelpers.helpers) (store_world (- 13) []) Tar 2
    ["tar"; foo_url] initial_state
  = (Returned (- 13),
     logged [EvLog LOG_ERR "Failed to check whether image '%s' exists: %m"
               ["foo"];
             EvImageFind IMAGE_MACHINE "foo"] initial_state) /\
  In (start_event Tar foo_url (Some "foo") forced_state)
     (trace (snd (pull (H := SpecHelpers.helpers)
                    (store_world 0 [LoopFinished 0]) Tar 2 ["tar"; foo_url]
                    forced_state))).
Proof.
  split; [|split].
  - apply (proj1 (collision_check (H := SpecHelpers.helpers)
                    (store_world 0 []) Tar 2 ["tar"; foo_url] "foo"
                    initial_state resolves_foo)).
    + reflexivity.
    + discriminate.
  - apply (proj1 (proj2 (collision_check (H := SpecHelpers.helpers)
                    (store_world (- 13) []) Tar 2 ["tar"; foo_url] "foo"
                    initial_state resolves_foo))).
    + reflexivity.
    + reflexivity.
    + discriminate.
  - apply (proj2 (proj2 (collision_check (H := SpecHelpers.helpers)
                    (store_world 0 [LoopFinished 0]) Tar 2 ["tar"; foo_url]
                    "foo" forced_state resolves_foo))).
    + reflexivity.
    + cbn. repeat split; intros; discriminate.
Defined.

Lemma name_from_url_witness :
  pull_resolve (H := SpecHelpers.helpers) (quiet_world []) Tar 2
    ["tar"; foo_url] initial_state
  = (Next (Some "foo"),
     logged [EvLog LOG_INFO "Pulling '%s', saving as '%s'." [foo_url; "foo"];
             EvImageFind IMAGE_MACHINE "foo"] initial_state) /\
  Some "foo"
  = Some (snd (strip_suffixes (H := SpecHelpers.helpers) Tar
                 (snd (SpecHelpers.import_url_last_component foo_url)))) /\
  (exists st1,
      pull_resolve (H := SpecHelpers.helpers) (store_world 0 []) Tar 2
        ["tar"; foo_url] forced_state
      = (Next (Some "foo"), st1)) /\
  pull_resolve (H := SpecHelpers.helpers) (quiet_world []) Tar 2
    ["tar"; dash_url] initial_state
  = (Next None, logged [EvLog LOG_INFO "Pulling '%s'." [dash_url]]
                  initial_state) /\
  pull (H := SpecHelpers.helpers) (quiet_world []) Raw 2 ["raw"; bare_url]
    initial_state
  = (Returned (- EINVAL),
     logged [EvLog LOG_ERR "Failed get final component of URL: %m" []]
       initial_state) /\
  pull (H := SpecHelpers.helpers) (quiet_world []) Raw 2 ["raw"; img_url]
    initial_state
  = pull (H := SpecHelpers.helpers) (quiet_world []) Raw 3
      ["raw"; img_url; "img.raw"] initial_state.
Proof.
  destruct name_from_url as [Hgen [Hspec _]].
  assert (Hfoo :
    pull_resolve (H := SpecHelpers.helpers) (quiet_world []) Tar 2
      ["tar"; foo_url] initial_state
    = (Next (Some "foo"),
       logged [EvLog LOG_INFO "Pulling '%s', saving as '%s'." [foo_url; "foo"];
               EvImageFind IMAGE_MACHINE "foo"] initial_state))
    by reflexivity.
  split; [exact Hfoo|]. split; [|split; [|split; [|split]]].
  - apply (proj1 (proj1 (proj2 (Hgen SpecHelpers.helpers (quiet_world []) Tar
                                   "tar" foo_url initial_state eq_refl))
                    ltac:(discriminate) ltac:(discriminate)
                    ltac:(discriminate))
             (Some "foo") _ Hfoo).
  - apply (proj2 (proj1 (proj2 (Hgen SpecHelpers.helpers (store_world 0 [])
                                   Tar "tar" foo_url forced_state eq_refl))
                    ltac:(discriminate) ltac:(discriminate)
                    ltac:(discriminate))).
    + discriminate.
    + reflexivity.
    + left. reflexivity.
  - apply (proj1 (proj2 (proj2 (Hgen SpecHelpers.helpers (quiet_world []) Tar
                                   "tar" dash_url initial_state eq_refl)))).
    + discriminate.
    + reflexivity.
  - apply (proj2 (proj2 (proj2 (Hgen SpecHelpers.helpers (quiet_world []) Raw
                                   "raw" bare_url initial_state eq_refl)))).
    reflexivity.
  - apply (proj1 (Hgen SpecHelpers.helpers (quiet_world []) Raw "raw"
                    img_url initial_state eq_refl)).
    discriminate.
Defined.

(** C4 fails on "tar https://example.com/-": the URL is valid and its last
    component "-" is extracted and keeps its text under suffix stripping,
    but the pull has no local name. *)
Lemma dash_component_is_no_name :
  SpecHelpers.http_url_is_valid dash_url = true /\
  SpecHelpers.import_url_last_component dash_url = (0, "-") /\
  SpecHelpers.tar_strip_suffixes "-" = (0, "-") /\
  pull_resolve (H := SpecHelpers.helpers) (quiet_world []) Tar 2
    ["tar"; dash_url] initial_state
  = (Next None, logged [EvLog LOG_INFO "Pulling '%s'." [dash_url]]
                  initial_state) /\
  pull_resolve (H := SpecHelpers.helpers) (quiet_world []) Tar 2
    ["tar"; dash_url] initial_state
  <> (Next (Some "-"),
      logged [EvLog LOG_INFO "Pulling '%s', saving as '%s'." [dash_url; "-"];
              EvImageFind IMAGE_MACHINE "-"] initial_state).
Proof. repeat split; try reflexivity. vm_compute. discriminate. Qed.

Lemma dash_means_no_name_witness :
  SpecHelpers.http_url_is_valid img_url = true /\
  pull_resolve (H := SpecHelpers.helpers) (quiet_world [LoopFinished 0]) Raw 3
    ["raw"; img_url; "-"] initial_state
  = (Next None, logged [EvLog LOG_INFO "Pulling '%s'." [img_url]]
                  initial_state) /\
  In (start_event Raw img_url None initial_state)
     (trace (snd (pull (H := SpecHelpers.helpers)
                    (quiet_world [LoopFinished 0]) Raw 3
                    ["raw"; img_url; "-"] initial_state))).
Proof.
  destruct (dash_means_no_name (H := SpecHelpers.helpers)
              (quiet_world [LoopFinished 0]) Raw "raw" img_url initial_state
              eq_refl) as [Hres [_ [_ Hstart]]].
  split; [reflexivity|]. split; [exact Hres|].
  apply Hstart. cbn. repeat split; intros; discriminate.
Defined.

Lemma empty_name_is_dash_witness :
  SpecHelpers.http_url_is_valid img_url = true /\
  pull_resolve (H := SpecHelpers.helpers) (store_world 0 []) Raw 3
    ["raw"; img_url; ""] initial_state
  = (Next None, logged [EvLog LOG_INFO "Pulling '%s'." [img_url]]
                  initial_state).
Proof.
  split; [reflexivity|].
  apply (proj1 (proj2 (empty_name_is_dash (H := SpecHelpers.helpers)
                         (store_world 0 []) Raw "raw" img_url initial_state)
                  eq_refl)).
Defined.

Lemma verb_dispatch_witness :
  pull_main (H := SpecHelpers.helpers) (quiet_world []) ["tar"; foo_url]
    initial_state
  = invoke (pull (H := SpecHelpers.helpers) (quiet_world []) Tar 2
              ["tar"; foo_url]) initial_state /\
  pull_main (H := SpecHelpers.helpers) (quiet_world []) ["zip"; foo_url]
    initial_state
  = (Returned (- EINVAL),
     logged [EvLog LOG_ERR "Unknown command verb %s." ["zip"]] initial_state) /\
  exists message,
    pull_main (H := SpecHelpers.helpers) (quiet_world [])
      ["raw"; img_url; "a"; "b"] initial_state
    = (Returned (- EINVAL), logged [EvLog LOG_ERR message []] initial_state).
Proof.
  destruct (verb_dispatch (H := SpecHelpers.helpers) (quiet_world [])
              initial_state) as [_ [Hpull [Hunknown [_ Hcount]]]].
  split; [|split].
  - apply (Hpull Tar foo_url []). repeat constructor.
  - apply Hunknown; discriminate.
  - apply (Hcount Raw [img_url; "a"; "b"]); discriminate.
Defined.

(** * Further properties of pull.c *)

(** ** Option parsing *)

Section Options.

Context {H : ImportHelpers} (w : World).

Lemma parse_argv_loop_stops (pre post : list getopt_ret) (st st1 : State)
      (x : step unit) :
  (forall u, x <> Next u) ->
  parse_argv_loop w pre st = (x, st1) ->
  parse_argv_loop w (pre ++ post) st = (x, st1).
Proof.
  intros Hx. revert st. induction pre as [|o pre IH]; intros st Hrun.
  - cbn in Hrun. injection Hrun as <- _. now destruct (Hx tt).
  - cbn [app]. rewrite parse_argv_loop_cons in *.
    destruct (parse_argv_case w o st) as [[[]|r| |] st2]; auto.
Qed.

Lemma parse_argv_case_silent (o : getopt_ret) (st st1 : State) :
  parse_argv_case w o st = (Next tt, st1) ->
  trace st1 = trace st /\ ev_signals st1 = ev_signals st /\
  ev_exit st1 = ev_exit st /\
  (0 <= arg_verify st -> 0 <= arg_verify st1).
Proof.
  split_cases; run_c; split_errors; intros Hr; try discriminate;
    injection Hr as <-; cbn; auto.
Qed.

Lemma parse_argv_case_without_force (o : getopt_ret) (st : State) :
  c o <> ARG_FORCE ->
  Z.testbit (arg_pull_flags st) 0 = false ->
  Z.testbit (arg_pull_flags (snd (parse_argv_case w o st))) 0 = false.
Proof.
  intros Ho Hf. split_cases; try contradiction; run_c; split_errors;
    flag_bits; auto.
Qed.

Lemma parse_argv_case_signature_needs_roothash (o : getopt_ret)
      (st : State) :
  c o <> ARG_ROOTHASH_SIGNATURE ->
  (Z.testbit (arg_pull_flags st) 3 = true ->
   Z.testbit (arg_pull_flags st) 2 = true) ->
  Z.testbit (arg_pull_flags (snd (parse_argv_case w o st))) 3 = true ->
  Z.testbit (arg_pull_flags (snd (parse_argv_case w o st))) 2 = true.
Proof.
  intros Ho Hinv. split_cases; try contradiction; run_c; split_errors;
    flag_bits; auto; try discriminate.
Qed.

(** X1: options are processed from left to right and the first one that
    ends the parse decides: when [parse_argv] does not accept a command
    line, it does the same, with the same result and state, on every
    command line that goes on after it. *)
Theorem first_failure_decides (pre post : list getopt_ret) (st : State) :
  fst (parse_argv w pre st) <> Returned 1 ->
  parse_argv w (pre ++ post) st = parse_argv w pre st.
Proof.
  intros Hpre. unfold parse_argv, bind in *.
  destruct (parse_argv_loop w pre st) as [[[]|r| |] st1] eqn:E.
  - now destruct Hpre.
  - now rewrite (parse_argv_loop_stops pre post st st1 (Returned r)).
  - now rewrite (parse_argv_loop_stops pre post st st1 Aborted).
  - now rewrite (parse_argv_loop_stops pre post st st1 Blocked).
Qed.

(** X2: a command line that [parse_argv] accepts is parsed in silence:
    nothing is logged or printed and the event loop is not touched; and a
    valid verify mode is still valid afterwards. *)
Theorem accepted_parse_is_silent (opts : list getopt_ret) (st st1 : State) :
  parse_argv w opts st = (Returned 1, st1) ->
  trace st1 = trace st /\ ev_signals st1 = ev_signals st /\
  ev_exit st1 = ev_exit st /\
  (0 <= arg_verify st -> 0 <= arg_verify st1).
Proof.
  intros Hrun. apply parse_argv_accepts in Hrun. revert st Hrun.
  induction opts as [|o opts IH]; intros st Hrun.
  - injection Hrun as <-. auto.
  - rewrite parse_argv_loop_cons in Hrun.
    destruct (parse_argv_case w o st) as [[[]|r| |] st2] eqn:E;
      try discriminate.
    destruct (parse_argv_case_silent o st st2 E) as [Ht [Hs [He Hv]]].
    destruct (IH st2 Hrun) as [Ht' [Hs' [He' Hv']]].
    repeat split; try congruence. auto.
Qed.

(** X3: FORCE is set by --force only.  When FORCE is unset and --force is
    not among the options, FORCE is unset after [parse_argv], however the
    parse ends. *)
Theorem no_force_without_option (opts : list getopt_ret) (st : State) :
  FLAGS_SET (arg_pull_flags st) PULL_FORCE = false ->
  (forall o, In o opts -> c o <> ARG_FORCE) ->
  FLAGS_SET (arg_pull_flags (snd (parse_argv w opts st))) PULL_FORCE = false.
Proof.
  rewrite parse_argv_state. flag_bits. revert st.
  induction opts as [|o opts IH]; intros st Hf Ho; [exact Hf|].
  rewrite parse_argv_loop_cons.
  assert (Hc := parse_argv_case_without_force o st (Ho o (or_introl eq_refl))
                  Hf).
  destruct (parse_argv_case w o st) as [[[]|r| |] st2]; cbn [snd] in *; auto.
  apply IH; auto. intros o' Hin. apply Ho. now right.
Qed.

(** X4: without a --roothash-signature option the signature never outlives
    the root hash.  If ROOTHASH_SIGNATURE set implies ROOTHASH set before
    the parse (as in the initial state) and no --roothash-signature option
    is given, it does so after the parse, however the parse ends. *)
Theorem signature_follows_roothash (opts : list getopt_ret) (st : State) :
  (FLAGS_SET (arg_pull_flags st) PULL_ROOTHASH_SIGNATURE = true ->
   FLAGS_SET (arg_pull_flags st) PULL_ROOTHASH = true) ->
  (forall o, In o opts -> c o <> ARG_ROOTHASH_SIGNATURE) ->
  FLAGS_SET (arg_pull_flags (snd (parse_argv w opts st)))
    PULL_ROOTHASH_SIGNATURE = true ->
  FLAGS_SET (arg_pull_flags (snd (parse_argv w opts st))) PULL_ROOTHASH
  = true.
Proof.
  rewrite parse_argv_state. flag_bits. revert st.
  induction opts as [|o opts IH]; intros st Hinv Ho; [exact Hinv|].
  rewrite parse_argv_loop_cons.
  assert (Hc := parse_argv_case_signature_needs_roothash o st
                  (Ho o (or_introl eq_refl)) Hinv).
  destruct (parse_argv_case w o st) as [[[]|r| |] st2]; cbn [snd] in *; auto.
  apply IH; auto. intros o' Hin. apply Ho. now right.
Qed.

(** X5: --settings, --roothash-signature and --verity set their own flag
    and nothing else.  After accepted options, such an option with a valid
    boolean value is accepted, its flag is set exactly when the value is
    true, and the other four flags, the verify mode and the image root are
    as before. *)
Theorem boolean_option_frame (pre : list getopt_ret) (st st0 : State)
        (code flag : Z) (v : string) :
  parse_argv w pre st = (Returned 1, st0) ->
  In (code, flag) [(ARG_SETTINGS, PULL_SETTINGS);
                   (ARG_ROOTHASH_SIGNATURE, PULL_ROOTHASH_SIGNATURE);
                   (ARG_VERITY, PULL_VERITY)] ->
  0 <= parse_boolean v ->
  exists st1,
    parse_argv w (pre ++ [mkOpt code v]) st = (Returned 1, st1) /\
    FLAGS_SET (arg_pull_flags st1) flag = c_true (parse_boolean v) /\
    (forall other,
        In other pull_flags_all -> other <> flag ->
        FLAGS_SET (arg_pull_flags st1) other
        = FLAGS_SET (arg_pull_flags st0) other) /\
    arg_verify st1 = arg_verify st0 /\
    arg_image_root st1 = arg_image_root st0.
Proof.
  intros Hpre Hcode Hv. rewrite (parse_argv_app w pre _ st st0 Hpre).
  unfold parse_argv, parse_argv_loop, parse_argv_case. cbn [c optarg].
  assert (E : (parse_boolean v <? 0) = false) by now apply Z.ltb_ge.
  cbn [In] in Hcode.
  destruct Hcode as [Hc|[Hc|[Hc|[]]]]; injection Hc as <- <-;
    cbv [CHAR_h CHAR_QUESTION ARG_VERSION ARG_FORCE ARG_IMAGE_ROOT ARG_VERIFY
         ARG_SETTINGS ARG_ROOTHASH ARG_ROOTHASH_SIGNATURE ARG_VERITY];
    cbn [Z.eqb Pos.eqb]; run_c; rewrite E; run_c;
    (eexists; split; [reflexivity|]); cbn [arg_pull_flags arg_verify
      arg_image_root]; (split; [now flag_bits|]);
    (split; [|split; reflexivity]);
    intros other Hin Hne; cbn [In pull_flags_all] in Hin;
    destruct Hin as [<-|[<-|[<-|[<-|[<-|[]]]]]];
    try (now destruct Hne); now flag_bits.
Qed.

(** X6: --roothash with a true value sets ROOTHASH and nothing else; with a
    false value it clears ROOTHASH and ROOTHASH_SIGNATURE and nothing
    else. *)
Theorem roothash_option_frame (pre : list getopt_ret) (st st0 : State)
        (v : string) :
  parse_argv w pre st = (Returned 1, st0) ->
  0 <= parse_boolean v ->
  exists st1,
    parse_argv w (pre ++ [mkOpt ARG_ROOTHASH v]) st = (Returned 1, st1) /\
    FLAGS_SET (arg_pull_flags st1) PULL_ROOTHASH = c_true (parse_boolean v) /\
    FLAGS_SET (arg_pull_flags st1) PULL_ROOTHASH_SIGNATURE
    = c_true (parse_boolean v)
      && FLAGS_SET (arg_pull_flags st0) PULL_ROOTHASH_SIGNATURE /\
    (forall other,
        In other [PULL_FORCE; PULL_SETTINGS; PULL_VERITY] ->
        FLAGS_SET (arg_pull_flags st1) other
        = FLAGS_SET (arg_pull_flags st0) other) /\
    arg_verify st1 = arg_verify st0 /\
    arg_image_root st1 = arg_image_root st0.
Proof.
  intros Hpre Hv. rewrite (parse_argv_app w pre _ st st0 Hpre).
  unfold parse_argv, parse_argv_loop, parse_argv_case. cbn [c optarg].
  assert (E : (parse_boolean v <? 0) = false) by now apply Z.ltb_ge.
  cbv [CHAR_h CHAR_QUESTION ARG_VERSION ARG_FORCE ARG_IMAGE_ROOT ARG_VERIFY
       ARG_SETTINGS ARG_ROOTHASH ARG_ROOTHASH_SIGNATURE ARG_VERITY].
  cbn [Z.eqb Pos.eqb]. run_c. rewrite E. run_c.
  destruct (c_true (parse_boolean v)) eqn:Et; run_c;
    (eexists; split; [reflexivity|]); cbn [arg_pull_flags arg_verify
      arg_image_root]; flag_bits; rewrite ?Et;
    (split; [reflexivity|]); (split; [reflexivity|]);
    (split; [|split; reflexivity]);
    intros other Hin; cbn [In] in Hin;
    destruct Hin as [<-|[<-|[<-|[]]]]; now flag_bits.
Qed.

(** X7: -h ends the invocation.  After accepted options, -h makes [run]
    print the usage text and return 0: no later option is looked at and no
    verb is dispatched, whatever the positional words are. *)
Theorem help_option_ends_run (pre post : list getopt_ret)
        (words : list string) (st st0 : State) (o : getopt_ret) :
  parse_argv w pre st = (Returned 1, st0) ->
  c o = CHAR_h ->
  run w (mkCommandLine (pre ++ o :: post) words) st
  = (Returned 0, logged [EvPrintf help_text [w_program_name w]] st0).
Proof.
  intros Hpre Ho. unfold run. cbn [cl_options cl_positional].
  unfold call at 1, bind at 1.
  rewrite (parse_argv_app w pre _ st st0 Hpre).
  unfold parse_argv, bind at 1. rewrite parse_argv_loop_cons.
  unfold parse_argv_case. rewrite Ho. reflexivity.
Qed.

(** X8: when [parse_argv] does not accept the command line, [run] ends as
    [parse_argv] did, with the same result and state: SIGPIPE is not
    ignored and no verb is dispatched. *)
Theorem rejected_options_end_run (cl : CommandLine) (st : State) :
  fst (parse_argv w (cl_options cl) st) <> Returned 1 ->
  run w cl st = parse_argv w (cl_options cl) st.
Proof.
  intros Hrej. unfold run, call at 1, bind at 1.
  destruct (parse_argv w (cl_options cl) st) as [[r|r| |] st1] eqn:E;
    try reflexivity.
  - exfalso. unfold parse_argv, bind, return_ in E.
    now destruct (parse_argv_loop w (cl_options cl) st) as [[[]|r'| |] st2].
  - assert (Hr : r <= 0).
    { unfold parse_argv, bind, return_ in E.
      destruct (parse_argv_loop w (cl_options cl) st) as [[[]|r'| |] st2]
        eqn:El; try discriminate.
      - injection E as <- _. now destruct Hrej.
      - injection E as <- _. eapply parse_argv_loop_returned; eassumption. }
    run_c. now rewrite (proj2 (Z.leb_le r 0) Hr).
Qed.

End Options.

(** ** Name resolution *)

(** Takes name resolution up to the suffix stripping of lines 67 and 153. *)
Ltac to_strip Hn :=
  let Hurl := fresh "Hurl" in
  destruct Hn as [Hurl [given [Hgiven Hkept]]];
  unfold pull_resolve, pull_tar_resolve, pull_raw_resolve;
  rewrite Hurl; run_c;
  match goal with
  | |- context [3 <=? ?argc] => destruct (3 <=? argc)
  end;
  [ subst given
  | destruct Hgiven as [Hr Hgiven];
    destruct (import_url_last_component _) as [r l]; cbn [fst snd] in *;
    subst given; run_c; rewrite (proj2 (Z.ltb_ge _ _) Hr) ];
  run_c; rewrite Hkept.

(** X9: a URL that [http_url_is_valid] rejects ends the pull with -EINVAL
    after one error line, whatever the name is: nothing else is called. *)
Theorem invalid_url_rejected {H : ImportHelpers} (w : World) (k : kind)
        (argc : Z) (argv : list string) (st : State) :
  http_url_is_valid (argv_at argv 1) = false ->
  pull w k argc argv st
  = (Returned (- EINVAL),
     logged [EvLog LOG_ERR "URL '%s' is not valid." [argv_at argv 1]] st).
Proof.
  intros Hurl. rewrite pull_unfold.
  destruct k; unfold pull_resolve, pull_tar_resolve, pull_raw_resolve;
    rewrite Hurl; reflexivity.
Qed.

(** X10: a name that is not a valid host name once its suffixes are
    stripped ends the pull with -EINVAL after one error line: the image
    store is not asked and no transfer is set up, with or without FORCE. *)
Theorem invalid_name_rejected {H : ImportHelpers} (w : World) (k : kind)
        (argc : Z) (argv : list string) (kept : string) (st : State) :
  keeps_name argc argv kept ->
  0 <= fst (strip_suffixes k kept) ->
  hostname_is_valid (snd (strip_suffixes k kept)) 0 = false ->
  pull w k argc argv st
  = (Returned (- EINVAL),
     logged [EvLog LOG_ERR "Local image name '%s' is not valid."
               [snd (strip_suffixes k kept)]] st).
Proof.
  intros Hn Hstrip Hhost. rewrite pull_unfold.
  destruct k; cbn [strip_suffixes] in *; to_strip Hn;
    match goal with
    | |- context [tar_strip_suffixes ?n] => destruct (tar_strip_suffixes n)
    | |- context [raw_strip_suffixes ?n] => destruct (raw_strip_suffixes n)
    end;
    cbn [fst snd] in *; run_c; rewrite (proj2 (Z.ltb_ge _ _) Hstrip); run_c;
    rewrite Hhost; reflexivity.
Qed.

(** X11: every failure of suffix stripping is reported as running out of
    memory: the pull ends with -ENOMEM after the line "Out of memory.",
    whatever negative value the helper answered, and nothing else is
    called. *)
Theorem strip_failure_is_oom {H : ImportHelpers} (w : World) (k : kind)
        (argc : Z) (argv : list string) (kept : string) (st : State) :
  keeps_name argc argv kept ->
  fst (strip_suffixes k kept) < 0 ->
  pull w k argc argv st
  = (Returned (- ENOMEM), logged [EvLog LOG_ERR "Out of memory." []] st).
Proof.
  intros Hn Hstrip. rewrite pull_unfold.
  destruct k; cbn [strip_suffixes] in *; to_strip Hn;
    match goal with
    | |- context [tar_strip_suffixes ?n] => destruct (tar_strip_suffixes n)
    | |- context [raw_strip_suffixes ?n] => destruct (raw_strip_suffixes n)
    end;
    cbn [fst snd] in *; run_c; rewrite (proj2 (Z.ltb_lt _ _) Hstrip);
    reflexivity.
Qed.

(** X12: a lookup that answers -ENOENT lets the pull go on.  Without FORCE
    and with no image of the resolved name, the pull asks the image store
    once, for that name in class IMAGE_MACHINE, logs the name it saves as
    and goes on to the transfer with it; the transfer asks the store
    nothing more. *)
Theorem absent_image_proceeds {H : ImportHelpers} (w : World) (k : kind)
        (argc : Z) (argv : list string) (name : string) (st : State) :
  resolves k argc argv name ->
  FLAGS_SET (arg_pull_flags st) PULL_FORCE = false ->
  w_image_find w IMAGE_MACHINE name = - ENOENT ->
  pull w k argc argv st
  = pull_transfer w k (argv_at argv 1) (Some name)
      (logged [EvLog LOG_INFO "Pulling '%s', saving as '%s'."
                 [argv_at argv 1; name];
               EvImageFind IMAGE_MACHINE name] st) /\
  exists added,
    trace (snd (pull w k argc argv st))
    = added ++ EvImageFind IMAGE_MACHINE name :: trace st /\
    forallb not_store added = true.
Proof.
  intros Hres Hforce Hfind.
  assert (E : pull w k argc argv st
              = pull_transfer w k (argv_at argv 1) (Some name)
                  (logged [EvLog LOG_INFO "Pulling '%s', saving as '%s'."
                             [argv_at argv 1; name];
                           EvImageFind IMAGE_MACHINE name] st))
    by now rewrite pull_unfold,
         (resolve_absent w k argc argv name st Hres Hforce Hfind).
  split; [exact E|]. rewrite E.
  destruct (emits_pull_transfer w k (argv_at argv 1) (Some name)
              (logged [EvLog LOG_INFO "Pulling '%s', saving as '%s'."
                         [argv_at argv 1; name];
                       EvImageFind IMAGE_MACHINE name] st))
    as [added [-> Hadded]].
  exists (added ++ [EvLog LOG_INFO "Pulling '%s', saving as '%s'."
                      [argv_at argv 1; name]]).
  cbn [logged trace app]. rewrite <- app_assoc, forallb_app, Hadded.
  split; reflexivity.
Qed.

(** X13: a name taken from the URL goes through the placeholder test too.
    When the last component of a valid URL is "-" (or empty) and no name is
    given, the pull has no local name: one log line, then the transfer
    without a name, and no lookup in the image store. *)
Theorem derived_placeholder {H : ImportHelpers} (w : World) (k : kind)
        (verb url : string) (st : State) :
  http_url_is_valid url = true ->
  0 <= fst (import_url_last_component url) ->
  empty_or_dash_to_null (snd (import_url_last_component url)) = None ->
  pull w k 2 [verb; url] st
  = pull_transfer w k url None
      (logged [EvLog LOG_INFO "Pulling '%s'." [url]] st) /\
  exists added,
    trace (snd (pull w k 2 [verb; url] st)) = added ++ trace st /\
    forallb not_store added = true.
Proof.
  intros Hurl Hr Hnull.
  assert (Hres : pull_resolve w k 2 [verb; url] st
                 = (Next None,
                    logged [EvLog LOG_INFO "Pulling '%s'." [url]] st)).
  { rewrite (resolve_derived w k verb url st Hurl Hr).
    now apply resolve_no_name. }
  destruct (trace_of_transfer w k 2 [verb; url] None
              (EvLog LOG_INFO "Pulling '%s'." [url]) st eq_refl Hres)
    as [E [Hadded _]].
  split; [exact E | exact Hadded].
Qed.

(** X14: with a name on the command line the last component of the URL is
    not looked at: the pull is the same whatever [import_url_last_component]
    would answer, also when it would fail. *)
Theorem supplied_name_ignores_url_component (H : ImportHelpers)
        (f : string -> Z * string) (w : World) (k : kind)
        (verb url name : string) (st : State) :
  pull (H := with_last_component H f) w k 3 [verb; url; name] st
  = pull (H := H) w k 3 [verb; url; name] st.
Proof. destruct k; reflexivity. Qed.

(** ** The transfer *)

(** Runs the set-up calls of a transfer under what is known of the world. *)
Ltac setup_steps :=
  unfold pull_transfer, pull_tar_transfer, pull_raw_transfer,
    sd_event_default, sigprocmask_many, sd_event_add_signal,
    tar_pull_new, tar_pull_start, raw_pull_new, raw_pull_start,
    sd_event_loop, event_state, signals_of, start_event, w_pull_new,
    w_pull_start, EvPullNew, EvPullStart, PULL_FLAGS_MASK in *;
  run_c;
  repeat (first
    [ match goal with
      | Hlt : ?a < 0 |- context [?a <? 0] =>
          rewrite (proj2 (Z.ltb_lt a 0) Hlt)
      | Hlt : ?a < 0 |- context [0 <=? ?a] =>
          rewrite (proj2 (Z.leb_gt 0 a) Hlt)
      | Hge : 0 <= ?a |- context [?a <? 0] =>
          rewrite (proj2 (Z.ltb_ge a 0) Hge)
      | Hge : 0 <= ?a |- context [0 <=? ?a] =>
          rewrite (proj2 (Z.leb_le 0 a) Hge)
      | |- context [0 <=? w_add_signal ?w ?s] =>
          destruct (0 <=? w_add_signal w s)
      end ]; run_c).

(** X15: when the event loop cannot be allocated the transfer ends with
    the error of [sd_event_default] after one error line: no signal is
    blocked and no puller is created. *)
Theorem event_loop_allocation_failure (w : World) (k : kind) (url : string)
        (local : option string) (st : State) :
  w_event_default w < 0 ->
  pull_transfer w k url local st
  = (Returned (w_event_default w),
     logged [EvLog LOG_ERR "Failed to allocate event loop: %m" [];
             EvEventDefault] st).
Proof.
  intros Hd. destruct k; setup_steps;
    unfold abs; rewrite Z.abs_neq, Z.opp_involutive by lia; reflexivity.
Qed.

(** X16: blocking SIGTERM and SIGINT is asserted.  When the loop is
    allocated and the signals cannot be blocked, the transfer stops on the
    failed assertion, before any handler is registered or puller created. *)
Theorem signal_mask_is_asserted (w : World) (k : kind) (url : string)
        (local : option string) (st : State) :
  0 <= w_event_default w ->
  w_sigprocmask w < 0 ->
  fst (pull_transfer w k url local st) = Aborted /\
  trace (snd (pull_transfer w k url local st))
  = [EvSigprocmask [SIGTERM; SIGINT]; EvEventDefault] ++ trace st.
Proof.
  intros Hd Hm. destruct k; setup_steps; split; reflexivity.
Qed.

(** X17: when the puller cannot be created the transfer ends with the
    error of the constructor after one error line: the puller is not
    started and the loop is not run. *)
Theorem puller_creation_failure (w : World) (k : kind) (url : string)
        (local : option string) (st : State) :
  0 <= w_event_default w ->
  0 <= w_sigprocmask w ->
  w_pull_new w k < 0 ->
  pull_transfer w k url local st
  = (Returned (w_pull_new w k),
     event_state w
       [EvLog LOG_ERR "Failed to allocate puller: %m" [];
        EvPullNew k (arg_image_root st);
        EvAddSignal SIGINT; EvAddSignal SIGTERM;
        EvSigprocmask [SIGTERM; SIGINT]; EvEventDefault] st).
Proof.
  intros Hd Hm Hn. destruct k; setup_steps;
    unfold abs; rewrite Z.abs_neq, Z.opp_involutive by lia; reflexivity.
Qed.

(** X18: when the puller refuses to start the transfer ends with the error
    of the start call after one error line, and the event loop is never
    run. *)
Theorem puller_start_failure (w : World) (k : kind) (url : string)
        (local : option string) (st : State) :
  0 <= w_event_default w ->
  0 <= w_sigprocmask w ->
  0 <= w_pull_new w k ->
  w_pull_start w k url local
    (Z.land (arg_pull_flags st) (PULL_FLAGS_MASK k)) (arg_verify st) < 0 ->
  pull_transfer w k url local st
  = (Returned (w_pull_start w k url local
                 (Z.land (arg_pull_flags st) (PULL_FLAGS_MASK k))
                 (arg_verify st)),
     event_state w
       [EvLog LOG_ERR "Failed to pull image: %m" [];
        start_event k url local st;
        EvPullNew k (arg_image_root st);
        EvAddSignal SIGINT; EvAddSignal SIGTERM;
        EvSigprocmask [SIGTERM; SIGINT]; EvEventDefault] st).
Proof.
  intros Hd Hm Hn Hs. destruct k; setup_steps;
    unfold abs; rewrite Z.abs_neq, Z.opp_involutive by lia; reflexivity.
Qed.

Section LoopOutcome.

Variables (w : World) (k : kind) (url : string) (local : option string).
Variable st : State.
Variables (pre post : list loop_event).
Hypothesis Hstart : starts w k url local.
Hypothesis Hpre : forallb (passes w) pre = true.

(** X19: what is logged when the puller completes with an error code
    other than INT_MIN, where [abs] is defined.  The transfer returns
    the negated magnitude of the puller's error code; the success line is
    logged for code 0 only, no error line is logged for another code, and
    "Exiting." is logged in both cases.  Events after the completion are
    not looked at. *)
Theorem completion_is_logged (error : Z) :
  INT_MIN < error ->
  w_loop_events w = pre ++ LoopFinished error :: post ->
  pull_transfer w k url local st
  = (Returned (- abs error),
     stopped_state (abs error)
       (EvLog LOG_INFO "Exiting." []
        :: (if error =? 0
            then [EvLog LOG_INFO "Operation completed successfully." []]
            else []))
       (loop_state w (EvPullNew k (arg_image_root st))
          (start_event k url local st) st)).
Proof.
  intros Hmin Hev. destruct k.
  - cbn [pull_transfer]. rewrite pull_tar_transfer_enters_loop by exact Hstart.
    unfold bind at 1. rewrite Hev, (sd_event_run_passes w) by easy.
    cbn [sd_event_run sd_event_dispatch].
    unfold on_tar_finished, sd_event_exit, stopped_state. run_c.
    destruct (error =? 0); run_c;
      (destruct (Z.ltb_spec (abs error) 0) as [Hneg|_];
       [unfold abs in Hneg; lia | reflexivity]).
  - cbn [pull_transfer]. rewrite pull_raw_transfer_enters_loop by exact Hstart.
    unfold bind at 1. rewrite Hev, (sd_event_run_passes w) by easy.
    cbn [sd_event_run sd_event_dispatch].
    unfold on_raw_finished, sd_event_exit, stopped_state. run_c.
    destruct (error =? 0); run_c;
      (destruct (Z.ltb_spec (abs error) 0) as [Hneg|_];
       [unfold abs in Hneg; lia | reflexivity]).
Qed.

(** X20: what is logged when a watched signal arrives first.  The transfer
    returns -EINTR after exactly one abort notice and "Exiting."; the
    puller's completion, should it follow, is not observed and logs
    nothing. *)
Theorem interruption_is_logged_once (signo : Z) :
  watched w signo = true ->
  w_loop_events w = pre ++ LoopSignal signo :: post ->
  pull_transfer w k url local st
  = (Returned (- EINTR),
     stopped_state EINTR
       [EvLog LOG_INFO "Exiting." []; EvLog LOG_NOTICE "Transfer aborted." []]
       (loop_state w (EvPullNew k (arg_image_root st))
          (start_event k url local st) st)).
Proof.
  intros Hw Hev.
  destruct (pull_transfer_enters_loop w k url local st Hstart)
    as [on_finished [_ ->]].
  unfold bind at 1. rewrite Hev, (sd_event_run_passes w) by easy.
  cbn [sd_event_run sd_event_dispatch]. unfold bind at 1 2, read.
  cbn [loop_state ev_signals]. rewrite existsb_signals_of, Hw.
  unfold interrupt_signal_handler, sd_event_exit, stopped_state. run_c.
  reflexivity.
Qed.

(** X21: when the loop itself fails with a negative value, the transfer
    returns that value after one error line; "Exiting." is not logged. *)
Theorem loop_failure_is_reported (r : Z) :
  r < 0 ->
  w_loop_events w = pre ++ LoopFailure r :: post ->
  pull_transfer w k url local st
  = (Returned r,
     logged [EvLog LOG_ERR "Failed to run event loop: %m" []]
       (loop_state w (EvPullNew k (arg_image_root st))
          (start_event k url local st) st)).
Proof.
  intros Hr Hev.
  destruct (pull_transfer_enters_loop w k url local st Hstart)
    as [on_finished [_ ->]].
  unfold bind at 1. rewrite Hev, (sd_event_run_passes w) by easy.
  cbn [sd_event_run]. run_c. rewrite (proj2 (Z.ltb_lt r 0) Hr). run_c.
  unfold abs. rewrite Z.abs_neq, Z.opp_involutive by lia. reflexivity.
Qed.

End LoopOutcome.

(** ** The further properties at concrete command lines *)

Lemma quiet_world_starts (events : list loop_event) (k : kind) (url : string)
      (local : option string) :
  starts (quiet_world events) k url local.
Proof.
  destruct k;
    exact (conj (Z.le_refl 0)
             (conj (Z.le_refl 0)
                (conj (Z.le_refl 0) (fun _ _ => Z.le_refl 0)))).
Qed.

Lemma first_failure_decides_witness :
  fst (parse_argv (H := SpecHelpers.helpers) (quiet_world [])
         [mkOpt ARG_FORCE ""; mkOpt ARG_VERIFY "bogus"] initial_state)
  = Returned (- EINVAL) /\
  parse_argv (H := SpecHelpers.helpers) (quiet_world [])
    ([mkOpt ARG_FORCE ""; mkOpt ARG_VERIFY "bogus"] ++ [mkOpt CHAR_h ""])
    initial_state
  = parse_argv (H := SpecHelpers.helpers) (quiet_world [])
      [mkOpt ARG_FORCE ""; mkOpt ARG_VERIFY "bogus"] initial_state.
Proof.
  split; [reflexivity|].
  apply (first_failure_decides (H := SpecHelpers.helpers) (quiet_world [])
           [mkOpt ARG_FORCE ""; mkOpt ARG_VERIFY "bogus"] [mkOpt CHAR_h ""]
           initial_state).
  vm_compute. discriminate.
Defined.

Lemma accepted_parse_is_silent_witness :
  parse_argv (H := SpecHelpers.helpers) (quiet_world [])
    [mkOpt ARG_FORCE ""; mkOpt ARG_VERIFY "checksum"] initial_state
  = (Returned 1, with_verify IMPORT_VERIFY_CHECKSUM forced_state) /\
  trace (with_verify IMPORT_VERIFY_CHECKSUM forced_state)
  = trace initial_state /\
  0 <= arg_verify (with_verify IMPORT_VERIFY_CHECKSUM forced_state).
Proof.
  assert (Hrun : parse_argv (H := SpecHelpers.helpers) (quiet_world [])
                   [mkOpt ARG_FORCE ""; mkOpt ARG_VERIFY "checksum"]
                   initial_state
                 = (Returned 1, with_verify IMPORT_VERIFY_CHECKSUM forced_state))
    by reflexivity.
  destruct (accepted_parse_is_silent (H := SpecHelpers.helpers) (quiet_world [])
              _ _ _ Hrun) as [Ht [_ [_ Hv]]].
  split; [exact Hrun|]. split; [exact Ht|]. apply Hv. discriminate.
Defined.

Lemma no_force_without_option_witness :
  FLAGS_SET (arg_pull_flags initial_state) PULL_FORCE = false /\
  FLAGS_SET
    (arg_pull_flags
       (snd (parse_argv (H := SpecHelpers.helpers) (quiet_world [])
               [mkOpt ARG_SETTINGS "no"; mkOpt ARG_VERIFY "bogus"]
               initial_state)))
    PULL_FORCE = false.
Proof.
  split; [reflexivity|].
  apply (no_force_without_option (H := SpecHelpers.helpers) (quiet_world [])
           [mkOpt ARG_SETTINGS "no"; mkOpt ARG_VERIFY "bogus"] initial_state).
  - reflexivity.
  - intros o [<-|[<-|[]]]; discriminate.
Defined.

Lemma signature_follows_roothash_witness :
  FLAGS_SET
    (arg_pull_flags
       (snd (parse_argv (H := SpecHelpers.helpers) (quiet_world [])
               [mkOpt ARG_ROOTHASH "yes"; mkOpt ARG_VERITY "no"]
               initial_state)))
    PULL_ROOTHASH_SIGNATURE = true /\
  FLAGS_SET
    (arg_pull_flags
       (snd (parse_argv (H := SpecHelpers.helpers) (quiet_world [])
               [mkOpt ARG_ROOTHASH "yes"; mkOpt ARG_VERITY "no"]
               initial_state)))
    PULL_ROOTHASH = true.
Proof.
  split; [reflexivity|].
  apply (signature_follows_roothash (H := SpecHelpers.helpers)
           (quiet_world [])
           [mkOpt ARG_ROOTHASH "yes"; mkOpt ARG_VERITY "no"] initial_state).
  - reflexivity.
  - intros o [<-|[<-|[]]]; discriminate.
  - reflexivity.
Defined.

Lemma boolean_option_frame_witness :
  exists st1,
    parse_argv (H := SpecHelpers.helpers) (quiet_world [])
      ([mkOpt ARG_FORCE ""] ++ [mkOpt ARG_VERITY "no"]) initial_state
    = (Returned 1, st1) /\
    FLAGS_SET (arg_pull_flags st1) PULL_VERITY = false /\
    FLAGS_SET (arg_pull_flags st1) PULL_FORCE = true.
Proof.
  destruct (boolean_option_frame (H := SpecHelpers.helpers) (quiet_world [])
              [mkOpt ARG_FORCE ""] initial_state forced_state
              ARG_VERITY PULL_VERITY "no" eq_refl
              (or_intror (or_intror (or_introl eq_refl))))
    as [st1 [Hrun [Hflag [Hother _]]]]; [discriminate|].
  exists st1. split; [exact Hrun|]. split; [exact Hflag|].
  rewrite (Hother PULL_FORCE); [reflexivity | now left | discriminate].
Defined.

Lemma roothash_option_frame_witness :
  exists st1,
    parse_argv (H := SpecHelpers.helpers) (quiet_world [])
      ([mkOpt ARG_FORCE ""] ++ [mkOpt ARG_ROOTHASH "no"]) initial_state
    = (Returned 1, st1) /\
    FLAGS_SET (arg_pull_flags st1) PULL_ROOTHASH = false /\
    FLAGS_SET (arg_pull_flags st1) PULL_ROOTHASH_SIGNATURE = false /\
    FLAGS_SET (arg_pull_flags st1) PULL_VERITY = true.
Proof.
  destruct (roothash_option_frame (H := SpecHelpers.helpers) (quiet_world [])
              [mkOpt ARG_FORCE ""] initial_state forced_state "no" eq_refl)
    as [st1 [Hrun [Hroot [Hsig [Hother _]]]]]; [discriminate|].
  exists st1. split; [exact Hrun|]. split; [exact Hroot|].
  split; [exact Hsig|].
  rewrite (Hother PULL_VERITY); [reflexivity | now right; right; left].
Defined.

Lemma help_option_ends_run_witness :
  run (H := SpecHelpers.helpers) (quiet_world [])
    (mkCommandLine
       ([mkOpt ARG_FORCE ""] ++ mkOpt CHAR_h "" :: [mkOpt ARG_VERIFY "bogus"])
       ["tar"; foo_url]) initial_state
  = (Returned 0,
     logged [EvPrintf help_text ["systemd-pull"]] forced_state).
Proof.
  exact (help_option_ends_run (H := SpecHelpers.helpers) (quiet_world [])
           [mkOpt ARG_FORCE ""] [mkOpt ARG_VERIFY "bogus"] ["tar"; foo_url]
           initial_state forced_state (mkOpt CHAR_h "") eq_refl eq_refl).
Defined.

Lemma rejected_options_end_run_witness :
  run (H := SpecHelpers.helpers) (quiet_world [])
    (mkCommandLine [mkOpt CHAR_QUESTION ""] ["tar"; foo_url]) initial_state
  = (Returned (- EINVAL), initial_state).
Proof.
  rewrite (rejected_options_end_run (H := SpecHelpers.helpers) (quiet_world [])
             (mkCommandLine [mkOpt CHAR_QUESTION ""] ["tar"; foo_url])
             initial_state).
  - reflexivity.
  - vm_compute. discriminate.
Defined.

Lemma invalid_url_rejected_witness :
  SpecHelpers.http_url_is_valid ftp_url = false /\
  pull (H := SpecHelpers.helpers) (store_world 0 []) Tar 3
    ["tar"; ftp_url; "foo"] forced_state
  = (Returned (- EINVAL),
     logged [EvLog LOG_ERR "URL '%s' is not valid." [ftp_url]] forced_state).
Proof.
  split; [reflexivity|].
  exact (invalid_url_rejected (H := SpecHelpers.helpers) (store_world 0 [])
           Tar 3 ["tar"; ftp_url; "foo"] forced_state eq_refl).
Defined.

Lemma keeps_name_given (url name : string) :
  SpecHelpers.http_url_is_valid url = true ->
  name <> "" -> name <> "-" ->
  keeps_name (H := SpecHelpers.helpers) 3 ["tar"; url; name] name.
Proof.
  intros Hurl He Hd. split; [exact Hurl|]. exists name.
  split; [reflexivity|]. now apply empty_or_dash_to_null_keeps.
Qed.

Lemma invalid_name_rejected_witness :
  pull (H := SpecHelpers.helpers) (quiet_world []) Tar 3
    ["tar"; foo_url; "my image.tar"] forced_state
  = (Returned (- EINVAL),
     logged [EvLog LOG_ERR "Local image name '%s' is not valid." ["my image"]]
       forced_state).
Proof.
  apply (invalid_name_rejected (H := SpecHelpers.helpers) (quiet_world [])
           Tar 3 ["tar"; foo_url; "my image.tar"] "my image.tar" forced_state).
  - apply keeps_name_given; [reflexivity | discriminate | discriminate].
  - discriminate.
  - reflexivity.
Defined.

Lemma strip_failure_is_oom_witness :
  pull (H := with_strip SpecHelpers.helpers (fun _ => (- EINVAL, "")))
    (quiet_world []) Raw 3 ["raw"; img_url; ".raw"] initial_state
  = (Returned (- ENOMEM),
     logged [EvLog LOG_ERR "Out of memory." []] initial_state).
Proof.
  apply (strip_failure_is_oom
           (H := with_strip SpecHelpers.helpers (fun _ => (- EINVAL, "")))
           (quiet_world []) Raw 3 ["raw"; img_url; ".raw"] ".raw"
           initial_state).
  - split; [reflexivity|]. exists ".raw". split; reflexivity.
  - reflexivity.
Defined.

Lemma absent_image_proceeds_witness :
  exists added,
    trace (snd (pull (H := SpecHelpers.helpers) (quiet_world [LoopFinished 0])
                  Tar 2 ["tar"; foo_url] initial_state))
    = added ++ EvImageFind IMAGE_MACHINE "foo" :: trace initial_state /\
    forallb not_store added = true.
Proof.
  apply (proj2 (absent_image_proceeds (H := SpecHelpers.helpers)
                  (quiet_world [LoopFinished 0]) Tar 2 ["tar"; foo_url] "foo"
                  initial_state resolves_foo eq_refl eq_refl)).
Defined.

Lemma derived_placeholder_witness :
  SpecHelpers.import_url_last_component dash_url = (0, "-") /\
  pull (H := SpecHelpers.helpers) (store_world 0 []) Raw 2 ["raw"; dash_url]
    initial_state
  = pull_transfer (store_world 0 []) Raw dash_url None
      (logged [EvLog LOG_INFO "Pulling '%s'." [dash_url]] initial_state).
Proof.
  split; [reflexivity|].
  apply (proj1 (derived_placeholder (H := SpecHelpers.helpers)
                  (store_world 0 []) Raw "raw" dash_url initial_state
                  eq_refl (Z.le_refl 0) eq_refl)).
Defined.

Lemma event_loop_allocation_failure_witness :
  pull_transfer (setup_world (- 12) 0 0 0 []) Tar foo_url (Some "foo")
    initial_state
  = (Returned (- 12),
     logged [EvLog LOG_ERR "Failed to allocate event loop: %m" [];
             EvEventDefault] initial_state).
Proof.
  exact (event_loop_allocation_failure (setup_world (- 12) 0 0 0 []) Tar
           foo_url (Some "foo") initial_state eq_refl).
Defined.

Lemma signal_mask_is_asserted_witness :
  fst (pull_transfer (setup_world 0 (- 1) 0 0 []) Raw img_url None
         initial_state) = Aborted.
Proof.
  apply (proj1 (signal_mask_is_asserted (setup_world 0 (- 1) 0 0 []) Raw
                  img_url None initial_state (Z.le_refl 0) eq_refl)).
Defined.

Lemma puller_creation_failure_witness :
  fst (pull_transfer (setup_world 0 0 (- 12) 0 []) Raw img_url None
         initial_state) = Returned (- 12).
Proof.
  rewrite (puller_creation_failure (setup_world 0 0 (- 12) 0 []) Raw img_url
             None initial_state (Z.le_refl 0) (Z.le_refl 0) eq_refl).
  reflexivity.
Defined.

Lemma puller_start_failure_witness :
  fst (pull_transfer (setup_world 0 0 0 (- 5) []) Tar foo_url (Some "foo")
         initial_state) = Returned (- 5).
Proof.
  rewrite (puller_start_failure (setup_world 0 0 0 (- 5) []) Tar foo_url
             (Some "foo") initial_state (Z.le_refl 0) (Z.le_refl 0)
             (Z.le_refl 0) eq_refl).
  reflexivity.
Defined.

Lemma completion_is_logged_witness :
  trace (snd (pull_transfer
                (quiet_world ([LoopProgress] ++ LoopFinished (- 5) :: []))
                Tar foo_url (Some "foo") initial_state))
  = [EvLog LOG_INFO "Exiting." []; EvEventLoop;
     EvTarPullStart foo_url (Some "foo") 2 IMPORT_VERIFY_SIGNATURE;
     EvTarPullNew "/var/lib/machines";
     EvAddSignal SIGINT; EvAddSignal SIGTERM;
     EvSigprocmask [SIGTERM; SIGINT]; EvEventDefault].
Proof.
  rewrite (completion_is_logged
             (quiet_world ([LoopProgress] ++ LoopFinished (- 5) :: []))
             Tar foo_url (Some "foo") initial_state [LoopProgress] []
             (quiet_world_starts _ Tar foo_url (Some "foo")) eq_refl
             (- 5) eq_refl eq_refl).
  reflexivity.
Defined.

Lemma interruption_is_logged_once_witness :
  trace (snd (pull_transfer
                (quiet_world ([LoopProgress] ++ LoopSignal SIGINT
                                :: [LoopFinished 0]))
                Raw img_url None initial_state))
  = [EvLog LOG_INFO "Exiting." []; EvLog LOG_NOTICE "Transfer aborted." [];
     EvEventLoop;
     EvRawPullStart img_url None 30 IMPORT_VERIFY_SIGNATURE;
     EvRawPullNew "/var/lib/machines";
     EvAddSignal SIGINT; EvAddSignal SIGTERM;
     EvSigprocmask [SIGTERM; SIGINT]; EvEventDefault].
Proof.
  rewrite (interruption_is_logged_once
             (quiet_world ([LoopProgress] ++ LoopSignal SIGINT
                             :: [LoopFinished 0]))
             Raw img_url None initial_state [LoopProgress] [LoopFinished 0]
             (quiet_world_starts _ Raw img_url None) eq_refl
             SIGINT eq_refl eq_refl).
  reflexivity.
Defined.

Lemma loop_failure_is_reported_witness :
  fst (pull_transfer (quiet_world ([] ++ LoopFailure (- 9) :: []))
         Tar foo_url (Some "foo") initial_state) = Returned (- 9).
Proof.
  rewrite (loop_failure_is_reported
             (quiet_world ([] ++ LoopFailure (- 9) :: []))
             Tar foo_url (Some "foo") initial_state [] []
             (quiet_world_starts _ Tar foo_url (Some "foo")) eq_refl
             (- 9) eq_refl eq_refl).
  reflexivity.
Defined.
